(** * uAgents storage: the file-backed key-value store and the private-key file

    A shallow embedding of [python/src/uagents/storage/__init__.py]:
    the [StorageAPI] interface, its [KeyValueStore] implementation, and the
    three functions [load_all_keys], [save_private_keys] and
    [get_or_create_private_keys] that keep [private_keys.json].

    Python values are modelled by the JSON fragment of the language (None,
    bool, int, float, str, list, dict with str keys) and tuples; a dict is an
    association list in insertion order.  Text is a list of Unicode code points.  The
    calls into the standard library ([json.dump], [json.load], [os.path])
    and into the key generators are modelled next to the code that calls
    them: the encoder and the decoder follow [json.encoder], [json.decoder]
    and [json.scanner] of CPython.

    Not modelled: the arithmetic and the printing of floats, the limits of the
    interpreter (recursion depth, number of digits of an int), the bytes of a
    file (a file holds text), what a failed write leaves in it, the
    directories above a file and its permissions (opening a path that is not
    a directory for writing succeeds) and the spellings of one path (a file
    is known by the text of its path). *)

From Stdlib Require Import ZArith NArith List Ascii String Bool Lia.
From Stdlib Require Import DecimalFacts DecimalPos DecimalN DecimalZ.
From stdpp Require Import base option list gmap.

Local Open Scope N_scope.

(** ** Text *)

(** A Python [str]: its code points, in order. Characters are written by
    their code points: 9 tab, 10 line feed, 13 carriage return, 32 space,
    34 double quote, 43 plus, 44 comma, 45 minus, 46 dot, 47 slash, 48 to 57
    the digits, 58 colon, 65 to 70 A to F, 73 I, 78 N, 91 and 93 the square
    brackets, 92 backslash, 97 to 102 a to f, 110 n, 114 r, 116 t, 117 u,
    123 and 125 the braces. *)
Abbreviation text := (list N).

Definition ord (a : ascii) : N := N_of_ascii a.

(** A string literal of the source, as text. *)
Definition lit (s : string) : text := map ord (list_ascii_of_string s).

(** [s.startswith(p)], returning what follows the prefix. *)
Fixpoint strip_prefix (p s : text) : option text :=
  match p, s with
  | [], _ => Some s
  | a :: p', b :: s' => if a =? b then strip_prefix p' s' else None
  | _ :: _, [] => None
  end.

(** [p in s] for two strings: [p] occurs in [s] as a contiguous run. *)
Fixpoint is_infix (p s : text) : bool :=
  match strip_prefix p s with
  | Some _ => true
  | None => match s with [] => false | _ :: s' => is_infix p s' end
  end.

(** Code points that UTF-8 can carry: every code point below 0x110000 apart
    from the surrogates. *)
Definition is_scalar (c : N) : bool :=
  (c <? 55296) || ((57343 <? c) && (c <? 1114112)).

(** ** Floats

    The arithmetic of floats is not modelled: a float is known by the
    literal it is read from, the text [json.dump] prints for it (ASCII: what
    [float.__repr__] gives, or [NaN], [Infinity], [-Infinity]) and its truth
    value. *)
Class PyFloat := {
  float : Type;
  float_of_literal : text -> float;
  float_repr : float -> text;
  float_truth : float -> bool;
  float_repr_ascii : forall f, forallb (fun c => c <? 128) (float_repr f) = true
}.

(** ** Values

    The values of Python [json.load] returns, and tuples: [set] takes any
    value, and [json.dump] writes a tuple as it writes a list. *)

Section Values.
Context `{PyFloat}.

Unset Elimination Schemes.
Inductive json : Type :=
  | JNull
  | JBool (b : bool)
  | JInt (z : Z)
  | JFloat (f : float)
  | JStr (s : text)
  | JArr (items : list json)
  | JObj (members : list (text * json))
  | JTuple (items : list json).
Set Elimination Schemes.

(** *** The dict operations the code uses, on association lists *)

(** [d.get(k)] / [d[k]]: the value bound to [k], if any. *)
Fixpoint dict_get (k : text) (d : list (text * json)) : option json :=
  match d with
  | [] => None
  | (k', v) :: d' => if decide (k = k') then Some v else dict_get k d'
  end.

(** [k in d]. *)
Definition dict_has (k : text) (d : list (text * json)) : bool :=
  match dict_get k d with Some _ => true | None => false end.

(** [d[k] = v]: an existing key keeps its place, a new key goes last. *)
Fixpoint dict_set (k : text) (v : json) (d : list (text * json))
  : list (text * json) :=
  match d with
  | [] => [(k, v)]
  | (k', v') :: d' =>
      if decide (k = k') then (k', v) :: d' else (k', v') :: dict_set k v d'
  end.

(** [del d[k]]. *)
Fixpoint dict_del (k : text) (d : list (text * json)) : list (text * json) :=
  match d with
  | [] => []
  | (k', v') :: d' =>
      if decide (k = k') then dict_del k d' else (k', v') :: dict_del k d'
  end.

(** [dict(pairs)]: later pairs overwrite earlier ones. *)
Definition dict_of_pairs (pairs : list (text * json)) : list (text * json) :=
  fold_left (fun d kv => dict_set (fst kv) (snd kv) d) pairs [].

(** ** [json.dump]: the encoder

    [json.dump(obj, fp, ensure_ascii=e, indent=4)] writes the chunks of
    [JSONEncoder(ensure_ascii=e, indent=4).iterencode(obj)]; with an indent
    the item separator is [","] and the key separator [": "]. *)

Definition hex_digit (d : N) : N :=
  if d <? 10 then 48 + d else 87 + d.

(** ['\\u{0:04x}'.format(n)] *)
Definition escape_u (n : N) : text :=
  [92; 117; hex_digit (N.shiftr n 12 mod 16); hex_digit (N.shiftr n 8 mod 16);
   hex_digit (N.shiftr n 4 mod 16); hex_digit (n mod 16)].

(** [ESCAPE_DCT]: the two-character escapes. *)
Definition escape_short (c : N) : option N :=
  if c =? 92 then Some 92          (* backslash *)
  else if c =? 34 then Some 34     (* double quote *)
  else if c =? 8 then Some 98      (* \b *)
  else if c =? 12 then Some 102    (* \f *)
  else if c =? 10 then Some 110    (* \n *)
  else if c =? 13 then Some 114    (* \r *)
  else if c =? 9 then Some 116     (* \t *)
  else None.

(** One character of [encode_basestring] ([ensure_ascii=False]) or of
    [encode_basestring_ascii] ([ensure_ascii=True]). *)
Definition escape_char (ensure_ascii : bool) (c : N) : text :=
  match escape_short c with
  | Some e => [92; e]
  | None =>
      if c <? 32 then escape_u c
      else if negb ensure_ascii then [c]
      else if c <? 127 then [c]
      else if c <? 65536 then escape_u c
      else
        let n := c - 65536 in
        escape_u (N.lor 55296 (N.land (N.shiftr n 10) 1023))
        ++ escape_u (N.lor 56320 (N.land n 1023))
  end.

Definition encode_string (ensure_ascii : bool) (s : text) : text :=
  34 :: concat (map (escape_char ensure_ascii) s) ++ [34].

Fixpoint uint_text (u : Decimal.uint) : text :=
  match u with
  | Decimal.Nil => []
  | Decimal.D0 u => 48 :: uint_text u
  | Decimal.D1 u => 49 :: uint_text u
  | Decimal.D2 u => 50 :: uint_text u
  | Decimal.D3 u => 51 :: uint_text u
  | Decimal.D4 u => 52 :: uint_text u
  | Decimal.D5 u => 53 :: uint_text u
  | Decimal.D6 u => 54 :: uint_text u
  | Decimal.D7 u => 55 :: uint_text u
  | Decimal.D8 u => 56 :: uint_text u
  | Decimal.D9 u => 57 :: uint_text u
  end.

(** [int.__repr__] *)
Definition int_repr (z : Z) : text :=
  match Z.to_int z with
  | Decimal.Pos u => uint_text u
  | Decimal.Neg u => 45 :: uint_text u
  end.

(** ['\n' + ' ' * (4 * level)] *)
Definition newline_indent (level : nat) : text :=
  10 :: repeat 32 (4 * level)%nat.

(** The chunks of a container, with the separator the loop yields between
    two of them. *)
Fixpoint join (sep : text) (chunks : list text) : text :=
  match chunks with
  | [] => []
  | [c] => c
  | c :: cs => c ++ sep ++ join sep cs
  end.

(** [_iterencode], its chunks joined. *)
Fixpoint encode (ensure_ascii : bool) (level : nat) (v : json) : text :=
  match v with
  | JNull => lit "null"
  | JBool true => lit "true"
  | JBool false => lit "false"
  | JInt z => int_repr z
  | JFloat f => float_repr f
  | JStr s => encode_string ensure_ascii s
  | JArr [] => lit "[]"
  | JArr items =>
      [91] ++ newline_indent (S level)
      ++ join (44 :: newline_indent (S level))
           (map (encode ensure_ascii (S level)) items)
      ++ newline_indent level ++ [93]
  | JObj [] => lit "{}"
  | JObj members =>
      [123] ++ newline_indent (S level)
      ++ join (44 :: newline_indent (S level))
           (map (fun kv => let '(k, x) := kv in
                   encode_string ensure_ascii k ++ lit ": "
                   ++ encode ensure_ascii (S level) x) members)
      ++ newline_indent level ++ [125]
  | JTuple [] => lit "[]"
  | JTuple items =>
      [91] ++ newline_indent (S level)
      ++ join (44 :: newline_indent (S level))
           (map (encode ensure_ascii (S level)) items)
      ++ newline_indent level ++ [93]
  end.

(** [json.dumps(v, ensure_ascii=e, indent=4)] *)
Definition dumps (ensure_ascii : bool) (v : json) : text :=
  encode ensure_ascii 0 v.

(** ** [json.load]: the decoder

    [json.load(fp)] is [JSONDecoder().decode(fp.read())]: the scanner of
    [json.scanner] with [scanstring], [JSONObject] and [JSONArray] of
    [json.decoder], in strict mode and without hooks. [None] stands for
    [JSONDecodeError]. *)

(** [WHITESPACE]: space, tab, line feed and carriage return. *)
Definition is_ws (c : N) : bool :=
  (c =? 32) || (c =? 9) || (c =? 10) || (c =? 13).

Fixpoint skip_ws (s : text) : text :=
  match s with
  | c :: r => if is_ws c then skip_ws r else s
  | [] => []
  end.

Definition hex_value (c : N) : option N :=
  if (48 <=? c) && (c <=? 57) then Some (c - 48)
  else if (97 <=? c) && (c <=? 102) then Some (c - 87)
  else if (65 <=? c) && (c <=? 70) then Some (c - 55)
  else None.

(** [_decode_uXXXX]: four hexadecimal digits. *)
Definition decode_hex4 (a b c d : N) : option N :=
  match hex_value a, hex_value b, hex_value c, hex_value d with
  | Some x, Some y, Some z, Some w => Some (((x * 16 + y) * 16 + z) * 16 + w)
  | _, _, _, _ => None
  end.

(** [BACKSLASH]: the character a two-character escape stands for. *)
Definition unescape (e : N) : option N :=
  if e =? 34 then Some 34
  else if e =? 92 then Some 92
  else if e =? 47 then Some 47
  else if e =? 98 then Some 8
  else if e =? 102 then Some 12
  else if e =? 110 then Some 10
  else if e =? 114 then Some 13
  else if e =? 116 then Some 9
  else None.

Definition is_high_surrogate (u : N) : bool := (55296 <=? u) && (u <=? 56319).
Definition is_low_surrogate (u : N) : bool := (56320 <=? u) && (u <=? 57343).

Definition push_char (c : N) (r : option (text * text)) : option (text * text) :=
  match r with
  | Some (str, rest) => Some (c :: str, rest)
  | None => None
  end.

(** [scanstring(s, end, strict=True)], from just after the opening quote:
    the string and what follows its closing quote. *)
Fixpoint scanstring (s : text) : option (text * text) :=
  match s with
  | [] => None
  | c :: r =>
      if c =? 34 then Some ([], r)
      else if c =? 92 then
        match r with
        | [] => None
        | e :: r1 =>
            if e =? 117 then
              match r1 with
              | h1 :: h2 :: h3 :: h4 :: r2 =>
                  match decode_hex4 h1 h2 h3 h4 with
                  | None => None
                  | Some uni =>
                      if is_high_surrogate uni then
                        match r2 with
                        | b :: u :: r3 =>
                            if (b =? 92) && (u =? 117) then
                              match r3 with
                              | l1 :: l2 :: l3 :: l4 :: r4 =>
                                  match decode_hex4 l1 l2 l3 l4 with
                                  | None => None
                                  | Some uni2 =>
                                      if is_low_surrogate uni2 then
                                        push_char
                                          (65536 + N.lor (N.shiftl (uni - 55296) 10)
                                                         (uni2 - 56320))
                                          (scanstring r4)
                                      else push_char uni (scanstring r2)
                                  end
                              | _ => None
                              end
                            else push_char uni (scanstring r2)
                        | _ => push_char uni (scanstring r2)
                        end
                      else push_char uni (scanstring r2)
                  end
              | _ => None
              end
            else
              match unescape e with
              | Some ch => push_char ch (scanstring r1)
              | None => None
              end
        end
      else if c <? 32 then None
      else push_char c (scanstring r)
  end.

Definition is_digit (c : N) : bool := (48 <=? c) && (c <=? 57).

(** The longest run of digits at the head of [s], and the rest. *)
Fixpoint span_digits (s : text) : text * text :=
  match s with
  | c :: r =>
      if is_digit c then let '(ds, r') := span_digits r in (c :: ds, r')
      else ([], s)
  | [] => ([], [])
  end.

(** [NUMBER_RE], first group: an optional minus sign, then either a single
    zero or a digit from 1 to 9 followed by any digits. *)
Definition match_integer (s : text) : option (text * text) :=
  let '(sign, s1) :=
    match s with
    | c :: r => if c =? 45 then ([45], r) else ([], s)
    | [] => ([], s)
    end in
  match s1 with
  | c :: r =>
      if c =? 48 then Some (sign ++ [48], r)
      else if is_digit c then
        let '(ds, r') := span_digits r in Some (sign ++ c :: ds, r')
      else None
  | [] => None
  end.

(** [NUMBER_RE], second group (optional): a dot and at least one digit. *)
Definition match_frac (s : text) : text * text :=
  match s with
  | c :: r =>
      if c =? 46 then
        match span_digits r with
        | ([], _) => ([], s)
        | (ds, r') => (46 :: ds, r')
        end
      else ([], s)
  | [] => ([], s)
  end.

(** [NUMBER_RE], third group (optional): e or E, an optional sign and at
    least one digit. *)
Definition match_exp (s : text) : text * text :=
  match s with
  | c :: r =>
      if (c =? 101) || (c =? 69) then
        let '(sign, r1) :=
          match r with
          | c' :: r' => if (c' =? 45) || (c' =? 43) then ([c'], r') else ([], r)
          | [] => ([], r)
          end in
        match span_digits r1 with
        | ([], _) => ([], s)
        | (ds, r2) => (c :: sign ++ ds, r2)
        end
      else ([], s)
  | [] => ([], s)
  end.

Definition digit_cons (c : N) (u : Decimal.uint) : Decimal.uint :=
  if c =? 48 then Decimal.D0 u else if c =? 49 then Decimal.D1 u
  else if c =? 50 then Decimal.D2 u else if c =? 51 then Decimal.D3 u
  else if c =? 52 then Decimal.D4 u else if c =? 53 then Decimal.D5 u
  else if c =? 54 then Decimal.D6 u else if c =? 55 then Decimal.D7 u
  else if c =? 56 then Decimal.D8 u else Decimal.D9 u.

Definition uint_of_text (s : text) : Decimal.uint :=
  fold_right digit_cons Decimal.Nil s.

(** [int(s)] for [s] matched by the first group of [NUMBER_RE]. *)
Definition int_of_text (s : text) : Z :=
  match s with
  | c :: r =>
      if c =? 45 then Z.of_int (Decimal.Neg (uint_of_text r))
      else Z.of_int (Decimal.Pos (uint_of_text s))
  | [] => 0%Z
  end.

(** [match_number] and the conversion of what it matched. *)
Definition scan_number (s : text) : option (json * text) :=
  match match_integer s with
  | None => None
  | Some (integer, r) =>
      let '(frac, r1) := match_frac r in
      let '(exp, r2) := match_exp r1 in
      match frac, exp with
      | [], [] => Some (JInt (int_of_text integer), r2)
      | _, _ => Some (JFloat (float_of_literal (integer ++ frac ++ exp)), r2)
      end
  end.

Definition scan_constant (s : text) : option (json * text) :=
  match strip_prefix (lit "NaN") s with
  | Some r => Some (JFloat (float_of_literal (lit "NaN")), r)
  | None =>
  match strip_prefix (lit "Infinity") s with
  | Some r => Some (JFloat (float_of_literal (lit "Infinity")), r)
  | None =>
  match strip_prefix (lit "-Infinity") s with
  | Some r => Some (JFloat (float_of_literal (lit "-Infinity")), r)
  | None => None
  end end end.

(** [scan_once], [JSONArray] and [JSONObject]. The first argument bounds the
    number of nested calls; [loads] gives more than any text needs.
    [parse_items] starts at a value of an array, [parse_members] just after
    the opening quote of a key. *)
Fixpoint scan_once (n : nat) (s : text) : option (json * text) :=
  match n with
  | O => None
  | S n' =>
      match s with
      | [] => None
      | c :: r =>
          if c =? 34 then
            match scanstring r with
            | Some (str, r') => Some (JStr str, r')
            | None => None
            end
          else if c =? 123 then
            match skip_ws r with
            | c' :: r' =>
                if c' =? 125 then Some (JObj [], r')
                else if c' =? 34 then
                  match parse_members n' r' with
                  | Some (pairs, r'') => Some (JObj (dict_of_pairs pairs), r'')
                  | None => None
                  end
                else None
            | [] => None
            end
          else if c =? 91 then
            match skip_ws r with
            | c' :: r' =>
                if c' =? 93 then Some (JArr [], r')
                else
                  match parse_items n' (c' :: r') with
                  | Some (items, r'') => Some (JArr items, r'')
                  | None => None
                  end
            | [] => None
            end
          else
            match strip_prefix (lit "null") s with
            | Some r' => Some (JNull, r')
            | None =>
            match strip_prefix (lit "true") s with
            | Some r' => Some (JBool true, r')
            | None =>
            match strip_prefix (lit "false") s with
            | Some r' => Some (JBool false, r')
            | None =>
            match scan_number s with
            | Some res => Some res
            | None => scan_constant s
            end end end end
      end
  end
with parse_items (n : nat) (s : text) : option (list json * text) :=
  match n with
  | O => None
  | S n' =>
      match scan_once n' s with
      | None => None
      | Some (v, r) =>
          match skip_ws r with
          | c :: r' =>
              if c =? 93 then Some ([v], r')
              else if c =? 44 then
                match parse_items n' (skip_ws r') with
                | Some (vs, r'') => Some (v :: vs, r'')
                | None => None
                end
              else None
          | [] => None
          end
      end
  end
with parse_members (n : nat) (s : text) : option (list (text * json) * text) :=
  match n with
  | O => None
  | S n' =>
      match scanstring s with
      | None => None
      | Some (key, r) =>
          match skip_ws r with
          | c :: r1 =>
              if c =? 58 then
                match scan_once n' (skip_ws r1) with
                | None => None
                | Some (v, r2) =>
                    match skip_ws r2 with
                    | c' :: r3 =>
                        if c' =? 125 then Some ([(key, v)], r3)
                        else if c' =? 44 then
                          match skip_ws r3 with
                          | q :: r4 =>
                              if q =? 34 then
                                match parse_members n' r4 with
                                | Some (ps, r5) => Some ((key, v) :: ps, r5)
                                | None => None
                                end
                              else None
                          | [] => None
                          end
                        else None
                    | [] => None
                    end
                end
              else None
          | [] => None
          end
      end
  end.

(** [json.loads(s)]: one value, with whitespace around it and nothing
    else. *)
Definition loads (s : text) : option json :=
  match scan_once (S (length s)) (skip_ws s) with
  | Some (v, r) => match skip_ws r with [] => Some v | _ :: _ => None end
  | None => None
  end.

End Values.

(** ** The process: files, working directory, key generators *)

(** What a path names. Directories above a file, permissions, symbolic links
    and the different spellings of one path are not modelled. *)
Inductive node :=
  | File (content : text)
  | Dir.

(** [identity_source k] and [wallet_source k] are the keys the [k]-th call of
    [Identity.generate().private_key] and of [PrivateKey().private_key]
    return; the counters say how many calls have been made. *)
Record world := {
  fs : gmap text node;
  cwd : text;
  identity_source : nat -> text;
  wallet_source : nat -> text;
  identity_calls : nat;
  wallet_calls : nat
}.

Inductive exn :=
  | AttributeError
  | FileNotFoundError
  | IsADirectoryError
  | JSONDecodeError
  | KeyError
  | TypeError
  | UnicodeEncodeError.

Inductive result (A : Type) :=
  | Ok (a : A)
  | Raise (e : exn).
Arguments Ok {A} a.
Arguments Raise {A} e.

(** A computation that may raise: nothing is said of the state an exception
    leaves behind. *)
Definition M (A : Type) : Type := world -> result (A * world).

Definition ret {A} (a : A) : M A := fun w => Ok (a, w).

Definition bind {A B} (m : M A) (k : A -> M B) : M B :=
  fun w => match m w with
           | Ok (a, w') => k a w'
           | Raise e => Raise e
           end.

(** A call that does not touch the process state. *)
Definition lift {A} (r : result A) : M A :=
  fun w => match r with Ok a => Ok (a, w) | Raise e => Raise e end.

Notation "x <- m ;; k" := (bind m (fun x => k))
  (at level 100, m at next level, right associativity).
Notation "m ;;; k" := (bind m (fun _ => k))
  (at level 100, right associativity).

Definition os_getcwd : M text := fun w => Ok (cwd w, w).

(** [posixpath.join(a, b)] *)
Definition os_path_join (a b : text) : text :=
  if match b with c :: _ => c =? 47 | [] => false end then b
  else
    match last a with
    | None => b
    | Some c => if c =? 47 then a ++ b else a ++ 47 :: b
    end.

Definition os_path_isfile (p : text) : M bool :=
  fun w => Ok (match fs w !! p with Some (File _) => true | _ => false end, w).

Definition os_path_exists (p : text) : M bool :=
  fun w => Ok (match fs w !! p with Some _ => true | None => false end, w).

(** [open(p, encoding="utf-8")] and [read()]. *)
Definition read_text (p : text) : M text :=
  fun w => match fs w !! p with
           | Some (File c) => Ok (c, w)
           | Some Dir => Raise IsADirectoryError
           | None => Raise FileNotFoundError
           end.

(** The process once the file [p] holds [c]. *)
Definition with_file (p c : text) (w : world) : world :=
  {| fs := <[p := File c]> (fs w); cwd := cwd w;
     identity_source := identity_source w;
     wallet_source := wallet_source w;
     identity_calls := identity_calls w;
     wallet_calls := wallet_calls w |}.

(** [open(p, "w", encoding="utf-8")] and the writes until the file is closed:
    the file holds exactly [c] afterwards. The codec refuses surrogates. The
    directory of [p] is taken to exist and to be writable. *)
Definition write_text (p : text) (c : text) : M unit :=
  fun w => match fs w !! p with
           | Some Dir => Raise IsADirectoryError
           | _ =>
               if forallb is_scalar c then Ok (tt, with_file p c w)
               else Raise UnicodeEncodeError
           end.

(** [Identity.generate().private_key] *)
Definition Identity_generate : M text :=
  fun w => Ok (identity_source w (identity_calls w),
               {| fs := fs w; cwd := cwd w;
                  identity_source := identity_source w;
                  wallet_source := wallet_source w;
                  identity_calls := S (identity_calls w);
                  wallet_calls := wallet_calls w |}).

(** [PrivateKey().private_key] *)
Definition PrivateKey_new : M text :=
  fun w => Ok (wallet_source w (wallet_calls w),
               {| fs := fs w; cwd := cwd w;
                  identity_source := identity_source w;
                  wallet_source := wallet_source w;
                  identity_calls := identity_calls w;
                  wallet_calls := S (wallet_calls w) |}).

Section Storage.
Context `{PyFloat}.

(** ** The operations of Python the code applies to a loaded value

    [json.load] may return any JSON value, not only a dict, and a value
    given to [set] may hold tuples; each operation says what it does on
    each kind. *)

(** [bool(v)] *)
Definition py_truth (v : json) : bool :=
  match v with
  | JNull => false
  | JBool b => b
  | JInt z => negb (z =? 0)%Z
  | JFloat f => float_truth f
  | JStr s => match s with [] => false | _ => true end
  | JArr l => match l with [] => false | _ => true end
  | JObj d => match d with [] => false | _ => true end
  | JTuple l => match l with [] => false | _ => true end
  end.

(** [key in v] *)
Definition py_contains (key : text) (v : json) : result bool :=
  match v with
  | JObj d => Ok (dict_has key d)
  | JArr l | JTuple l =>
      Ok (existsb (fun x => match x with
                            | JStr s => bool_decide (s = key)
                            | _ => false
                            end) l)
  | JStr s => Ok (is_infix key s)
  | _ => Raise TypeError
  end.

(** [v.get(key)] *)
Definition py_get (v : json) (key : text) : result json :=
  match v with
  | JObj d => Ok (match dict_get key d with Some x => x | None => JNull end)
  | _ => Raise AttributeError
  end.

(** [v[key]] *)
Definition py_getitem (v : json) (key : text) : result json :=
  match v with
  | JObj d => match dict_get key d with Some x => Ok x | None => Raise KeyError end
  | _ => Raise TypeError
  end.

(** [v[key] = x] *)
Definition py_setitem (v : json) (key : text) (x : json) : result json :=
  match v with
  | JObj d => Ok (JObj (dict_set key x d))
  | _ => Raise TypeError
  end.

(** [del v[key]] *)
Definition py_delitem (v : json) (key : text) : result json :=
  match v with
  | JObj d => if dict_has key d then Ok (JObj (dict_del key d)) else Raise KeyError
  | _ => Raise TypeError
  end.

(** [v.clear()] *)
Definition py_clear (v : json) : result json :=
  match v with
  | JObj _ => Ok (JObj [])
  | JArr _ => Ok (JArr [])
  | _ => Raise AttributeError
  end.

(** [json.load(file)] on the text of the file. *)
Definition json_load (c : text) : result json :=
  match loads c with
  | Some v => Ok v
  | None => Raise JSONDecodeError
  end.

(** [with open(p, "w", encoding="utf-8") as f: json.dump(v, f, ensure_ascii=e,
    indent=4)] *)
Definition json_dump (v : json) (p : text) (ensure_ascii : bool) : M unit :=
  write_text p (dumps ensure_ascii v).

End Storage.

(** ** [class StorageAPI]: the interface of a key-value storage *)

Class StorageAPI `{PyFloat} (S : Type) := {
  get : S -> text -> result json;
  has : S -> text -> result bool;
  set : text -> json -> S -> M S;
  remove : text -> S -> M S;
  clear : S -> M S
}.

(** ** [class KeyValueStore] *)

Module KeyValueStore.
Section KeyValueStore.
Context `{PyFloat}.

Record t := {
  _data : json;
  _name : text;
  _path : text
}.

Definition with_data (self : t) (d : json) : t :=
  {| _data := d; _name := _name self; _path := _path self |}.

(** [self._data = json.load(file)], the file opened at [self._path]. *)
Definition _load (self : t) : M t :=
  c <- read_text (_path self) ;;
  d <- lift (json_load c) ;;
  ret (with_data self d).

(** [json.dump(self._data, file, ensure_ascii=False, indent=4)], the file
    opened for writing at [self._path]. *)
Definition _save (self : t) : M unit :=
  json_dump (_data self) (_path self) false.

(** [name or "my"] *)
Definition store_name (name : text) : text :=
  match name with [] => lit "my" | _ => name end.

(** [cwd or os.getcwd()] *)
Definition store_dir (cwd : option text) : M text :=
  match cwd with
  | Some (c :: r) => ret (c :: r)
  | _ => os_getcwd
  end.

(** [KeyValueStore(name, cwd)]; [cwd] is [None] when the argument is left
    out. *)
Definition __init__ (name : text) (cwd : option text) : M t :=
  let name := store_name name in
  cwd <- store_dir cwd ;;
  let self := {| _data := JObj []; _name := name;
                 _path := os_path_join cwd (name ++ lit "_data.json") |} in
  isfile <- os_path_isfile (_path self) ;;
  if isfile then _load self else ret self.

Definition get (self : t) (key : text) : result json :=
  py_get (_data self) key.

Definition has (self : t) (key : text) : result bool :=
  py_contains key (_data self).

Definition set (key : text) (value : json) (self : t) : M t :=
  d <- lift (py_setitem (_data self) key value) ;;
  let self := with_data self d in
  _save self ;;;
  ret self.

Definition remove (key : text) (self : t) : M t :=
  present <- lift (py_contains key (_data self)) ;;
  if present then
    d <- lift (py_delitem (_data self) key) ;;
    let self := with_data self d in
    _save self ;;;
    ret self
  else ret self.

Definition clear (self : t) : M t :=
  d <- lift (py_clear (_data self)) ;;
  let self := with_data self d in
  _save self ;;;
  ret self.

(** The path [__init__] gives the store of this name and directory, in a
    process whose state is [w]. *)
Definition path_of (name : text) (cwd : option text) (w : world) : text :=
  match store_dir cwd w with
  | Ok (d, _) => os_path_join d (store_name name ++ lit "_data.json")
  | Raise _ => []
  end.

End KeyValueStore.
End KeyValueStore.

#[export] Instance KeyValueStore_StorageAPI `{PyFloat} : StorageAPI KeyValueStore.t := {
  get := KeyValueStore.get;
  has := KeyValueStore.has;
  set := KeyValueStore.set;
  remove := KeyValueStore.remove;
  clear := KeyValueStore.clear
}.

(** ** The private-key file *)

Section PrivateKeys.
Context `{PyFloat}.

Definition private_keys_path : M text :=
  d <- os_getcwd ;;
  ret (os_path_join d (lit "private_keys.json")).

Definition load_all_keys : M json :=
  private_keys_path <- private_keys_path ;;
  found <- os_path_exists private_keys_path ;;
  if found then
    c <- read_text private_keys_path ;;
    lift (json_load c)
  else ret (JObj []).

Definition key_record (identity_key wallet_key : text) : json :=
  JObj [(lit "identity_key", JStr identity_key);
        (lit "wallet_key", JStr wallet_key)].

Definition save_private_keys (name identity_key wallet_key : text) : M unit :=
  private_keys <- load_all_keys ;;
  private_keys <- lift (py_setitem private_keys name
                          (key_record identity_key wallet_key)) ;;
  private_keys_path <- private_keys_path ;;
  json_dump private_keys private_keys_path true.

(** The two [if]s of [get_or_create_private_keys]: the pair the function
    returns early, if it does. *)
Definition stored_keys (keys : json) (name : text) : result (option (json * json)) :=
  match py_contains name keys with
  | Raise e => Raise e
  | Ok false => Ok None
  | Ok true =>
      match py_get keys name with
      | Raise e => Raise e
      | Ok private_keys =>
          if py_truth private_keys then
            match py_getitem private_keys (lit "identity_key") with
            | Raise e => Raise e
            | Ok identity_key =>
                match py_getitem private_keys (lit "wallet_key") with
                | Raise e => Raise e
                | Ok wallet_key => Ok (Some (identity_key, wallet_key))
                end
            end
          else Ok None
      end
  end.

Definition get_or_create_private_keys (name : text) : M (json * json) :=
  keys <- load_all_keys ;;
  early <- lift (stored_keys keys name) ;;
  match early with
  | Some stored => ret stored
  | None =>
      identity_key <- Identity_generate ;;
      wallet_key <- PrivateKey_new ;;
      wallet_key' <- PrivateKey_new ;;
      save_private_keys name identity_key wallet_key' ;;;
      ret (JStr identity_key, JStr wallet_key)
  end.

End PrivateKeys.

(** The file [load_all_keys] and [save_private_keys] work on, in a process
    whose state is [w]. *)
Definition private_keys_file (w : world) : text :=
  os_path_join (cwd w) (lit "private_keys.json").

(** ** Values that a dump and a load give back unchanged

    The keys of a dict are distinct, no float (their text is not modelled)
    and no tuple occurs, and every string satisfies [str_ok]. *)

Section WellFormed.
Context `{PyFloat}.

Fixpoint well_formed (str_ok : text -> bool) (v : json) : bool :=
  match v with
  | JNull | JBool _ | JInt _ => true
  | JFloat _ | JTuple _ => false
  | JStr s => str_ok s
  | JArr items => forallb (well_formed str_ok) items
  | JObj members =>
      bool_decide (NoDup (map fst members))
      && forallb (fun kv => let '(k, x) := kv in
                    str_ok k && well_formed str_ok x) members
  end.

(** What strings must satisfy, by the [ensure_ascii] of the dump: escaping
    splits a character above 0xFFFF into a surrogate pair and the decoder
    joins any such pair, so with [ensure_ascii=True] the strings hold no
    surrogate of their own. *)
Definition str_ok_for (ensure_ascii : bool) (s : text) : bool :=
  if ensure_ascii then forallb is_scalar s else true.

End WellFormed.

(** ** A model of floats to run the code on examples

    A float is the literal it is read from, printed as that literal (what
    of it is ASCII) and true when its mantissa has a digit other than 0. *)

Fixpoint mantissa (l : text) : text :=
  match l with
  | c :: r => if (c =? 101) || (c =? 69) then [] else c :: mantissa r
  | [] => []
  end.

Definition literal_float : PyFloat.
Proof.
  refine {| float := text;
            float_of_literal := fun l => l;
            float_repr := fun f => filter (fun c => c < 128) f;
            float_truth := fun f =>
              existsb (fun c => ((49 <=? c) && (c <=? 57))
                                || (c =? 78) || (c =? 73)) (mantissa f) |}.
  intros f. apply forallb_forall. intros c Hc.
  apply list_elem_of_In, list_elem_of_filter in Hc as [Hc _].
  now apply N.ltb_lt.
Defined.

(** A process started in [/home/agent] with no file, whose generators count
    their keys. *)
Definition fresh_world : world :=
  {| fs := ∅; cwd := lit "/home/agent";
     identity_source := fun k => lit "identity-" ++ int_repr (Z.of_nat k);
     wallet_source := fun k => lit "wallet-" ++ int_repr (Z.of_nat k);
     identity_calls := 0; wallet_calls := 0 |}.

(** The same process with [content] in the file [path]. *)
Definition world_with (path content : text) : world :=
  {| fs := {[ path := File content ]}; cwd := lit "/home/agent";
     identity_source := identity_source fresh_world;
     wallet_source := wallet_source fresh_world;
     identity_calls := 0; wallet_calls := 0 |}.

(** Stores and key files of this process. *)

Section Samples.
#[local] Existing Instance literal_float.

Definition store_file : text := lit "/home/agent/my_data.json".

Definition keys_file : text := lit "/home/agent/private_keys.json".

Definition empty_store : KeyValueStore.t :=
  {| KeyValueStore._data := JObj [];
     KeyValueStore._name := lit "my";
     KeyValueStore._path := store_file |}.

Definition store_of (d : list (text * json)) : KeyValueStore.t :=
  KeyValueStore.with_data empty_store (JObj d).

Definition keys_of (d : list (text * json)) : world :=
  world_with keys_file (dumps true (JObj d)).

Definition sample_data : list (text * json) :=
  [(lit "x", JInt 1);
   (lit "greeting", JStr (lit "tab, quote, e-acute, emoji: " ++ [9; 34; 233; 128512]));
   (lit "nested", JArr [JNull; JBool true; JInt (-42); JObj [(lit "k", JArr [])]])].

(** The scenario of the specification: [alice] has the keys [A] and [B]. *)
Definition alice_keys : list (text * json) :=
  [(lit "alice", key_record (lit "A") (lit "B"))].

Definition bob_keys : list (text * json) :=
  [(lit "bob", key_record (lit "C") (lit "D"))].

(** [alice] is bound to an empty record. *)
Definition alice_empty : list (text * json) := [(lit "alice", JObj [])].

(** [alice] is bound to a record whose two keys are empty strings. *)
Definition alice_blank : list (text * json) :=
  [(lit "alice", key_record [] [])].

End Samples.

Section More_samples.
#[local] Existing Instance literal_float.

(** A store that binds [x] and [y]. *)
Definition xy_data : list (text * json) := [(lit "x", JInt 1); (lit "y", JInt 2)].

(** A record that has an identity key and no wallet key. *)
Definition alice_half : list (text * json) :=
  [(lit "alice", JObj [(lit "identity_key", JStr (lit "A"))])].

(** A store that holds a float beside the other kinds of values. *)
Definition measured_data : list (text * json) :=
  sample_data ++ [(lit "ratio", JFloat (lit "1.5"))].

(** A store that binds [t] to the tuple [(1, 2)], and one that binds it to
    the list [[1, 2]]. *)
Definition pair_data : list (text * json) := [(lit "t", JTuple [JInt 1; JInt 2])].

Definition listed_data : list (text * json) := [(lit "t", JArr [JInt 1; JInt 2])].

End More_samples.

(** ** Notions used to state the properties *)

(** A call that succeeds with [n] nested calls allowed consumes text, and
    succeeds as well with any allowance that is at least the number of
    characters it consumes. *)
Definition fuel_adequate {A} (f : nat -> text -> option (A * text)) (n : nat)
  : Prop :=
  forall s x r,
    f n s = Some (x, r) ->
    (length r < length s)%nat
    /\ forall m, (length s - length r <= m)%nat -> f m s = Some (x, r).

(** Text of ASCII characters only. *)
Definition ascii_text (t : text) : Prop := Forall (fun c => c < 128) t.

(** Text in front of which a number ends: nothing, or text that does not
    start with a digit. *)
Definition no_digit_head (r : text) : Prop :=
  match r with [] => True | c :: _ => is_digit c = false end.

(** What follows an encoded value inside a container or at the end of the
    text: nothing, a comma or a line feed. *)
Definition delimited (r : text) : Prop :=
  match r with [] => True | c :: _ => c = 44 \/ c = 10 end.

(** The first character of an encoded value. *)
Definition value_start (c : N) : Prop :=
  c = 34 \/ c = 123 \/ c = 91 \/ c = 110 \/ c = 116 \/ c = 102 \/ c = 45
  \/ is_digit c = true.

Section Readback.
Context `{PyFloat}.

(** The decoder reads the float [f] back from the text the encoder prints
    for it. *)
Definition float_reads_back (f : float) : Prop :=
  forall n r,
    delimited r -> scan_once (S n) (float_repr f ++ r) = Some (JFloat f, r).

(** Values made of what [json.load] returns: no tuple, the keys of a dict
    distinct, every float read back from its text, and every string as
    [str_ok_for] wants it. *)
Fixpoint round_trips (e : bool) (v : json) : Prop :=
  match v with
  | JNull | JBool _ | JInt _ => True
  | JFloat f => float_reads_back f
  | JStr s => str_ok_for e s = true
  | JArr items => fold_right (fun x P => round_trips e x /\ P) True items
  | JObj members =>
      NoDup (map fst members)
      /\ fold_right (fun kv P => let '(k, x) := kv in
                       (str_ok_for e k = true /\ round_trips e x) /\ P)
           True members
  | JTuple _ => False
  end.

(** What the induction proves of a value: it is read back from its encoding
    at any level, in front of any delimited text, by a scanner allowed more
    nested calls than the encoding has characters. *)
Definition reads_back (e : bool) (v : json) : Prop :=
  forall level n r,
    round_trips e v ->
    delimited r ->
    (length (encode e level v) < n)%nat ->
    scan_once n (encode e level v ++ r) = Some (v, r).

(** The process after the creation path has run for [name] over the
    mapping [d]. *)
Definition after_creation (name : text) (d : list (text * json)) (w : world)
  : world :=
  {| fs := <[private_keys_file w :=
               File (dumps true
                       (JObj (dict_set name
                                (key_record (identity_source w (identity_calls w))
                                   (wallet_source w (S (wallet_calls w)))) d)))]>
             (fs w);
     cwd := cwd w;
     identity_source := identity_source w;
     wallet_source := wallet_source w;
     identity_calls := S (identity_calls w);
     wallet_calls := S (S (wallet_calls w)) |}.

(** The chunk [_iterencode_dict] yields for one item. *)
Definition member_chunk (e : bool) (level : nat) (kv : text * json) : text :=
  let '(k, x) := kv in
  encode_string e k ++ lit ": " ++ encode e level x.

End Readback.

(** What [os.path.join] puts in front of a relative path. *)
Definition join_prefix (d : text) : text :=
  match last d with
  | None => []
  | Some c => if c =? 47 then d else d ++ [47]
  end.

(** * Properties *)

(** ** Dicts *)

Section DictFacts.
Context `{PyFloat}.

Lemma dict_get_set_eq k v d : dict_get k (dict_set k v d) = Some v.
Proof.
  induction d as [|[k' v'] d IH]; simpl.
  - now rewrite decide_True.
  - destruct (decide (k = k')) as [->|Hne]; simpl.
    + now rewrite decide_True.
    + now rewrite decide_False.
Qed.

Lemma dict_get_set_ne k k' v d :
  k' <> k -> dict_get k' (dict_set k v d) = dict_get k' d.
Proof.
  intros Hne. induction d as [|[k0 v0] d IH]; simpl.
  - now rewrite decide_False.
  - destruct (decide (k = k0)) as [->|Hk]; simpl.
    + now rewrite !decide_False.
    + destruct (decide (k' = k0)); [reflexivity | exact IH].
Qed.

Lemma dict_has_set k v d : dict_has k (dict_set k v d) = true.
Proof. unfold dict_has. now rewrite dict_get_set_eq. Qed.

Lemma dict_has_in k d : dict_has k d = true <-> In k (map fst d).
Proof.
  unfold dict_has. induction d as [|[k' v'] d IH]; simpl.
  - split; [discriminate | tauto].
  - destruct (decide (k = k')) as [->|Hne].
    + split; auto.
    + rewrite IH. split; [auto | intros [Heq|Hin]; congruence].
Qed.

Lemma dict_set_fresh k v d :
  ~ In k (map fst d) -> dict_set k v d = d ++ [(k, v)].
Proof.
  induction d as [|[k' v'] d IH]; simpl; intros Hnin; [reflexivity|].
  rewrite decide_False by (intros ->; apply Hnin; now left).
  f_equal. apply IH. tauto.
Qed.

(** [dict(pairs)] of pairs with distinct keys is the list of pairs. *)
Lemma dict_of_pairs_nodup (pairs : list (text * json)) :
  NoDup (map fst pairs) -> dict_of_pairs pairs = pairs.
Proof.
  unfold dict_of_pairs.
  enough (Hgen : forall (acc : list (text * json)),
             NoDup (map fst (acc ++ pairs)) ->
             fold_left (fun d kv => dict_set (fst kv) (snd kv) d) pairs acc
             = acc ++ pairs) by (intros Hnd; exact (Hgen [] Hnd)).
  induction pairs as [|[k v] pairs IH]; intros acc Hnd; simpl.
  - now rewrite app_nil_r.
  - rewrite dict_set_fresh.
    + rewrite IH; rewrite <- app_assoc; [reflexivity | exact Hnd].
    + rewrite map_app in Hnd. simpl in Hnd.
      apply NoDup_app in Hnd as (_ & Hdisj & _).
      intros Hin. apply (Hdisj k); [now apply list_elem_of_In | left].
Qed.

End DictFacts.

(** ** The encoder and the decoder *)

Ltac bools :=
  repeat match goal with
  | |- context [?a <? ?b] => destruct (N.ltb_spec a b)
  | |- context [?a <=? ?b] => destruct (N.leb_spec a b)
  | |- context [?a =? ?b] => destruct (N.eqb_spec a b)
  end; simpl; try lia.

Ltac dlia := zify; Z.to_euclidean_division_equations; lia.

Lemma hex_value_digit d : d < 16 -> hex_value (hex_digit d) = Some d.
Proof.
  intros Hd. unfold hex_value, hex_digit. bools; f_equal; lia.
Qed.

Lemma decode_escape_u n :
  n < 65536 ->
  decode_hex4 (hex_digit (N.shiftr n 12 mod 16)) (hex_digit (N.shiftr n 8 mod 16))
              (hex_digit (N.shiftr n 4 mod 16)) (hex_digit (n mod 16)) = Some n.
Proof.
  intros Hn. unfold decode_hex4.
  rewrite !hex_value_digit by (apply N.mod_lt; discriminate).
  f_equal. rewrite !N.shiftr_div_pow2.
  change (2 ^ 12) with 4096; change (2 ^ 8) with 256; change (2 ^ 4) with 16.
  dlia.
Qed.

Lemma lor_disjoint a x k : x < 2 ^ k -> N.lor (a * 2 ^ k) x = a * 2 ^ k + x.
Proof.
  intros Hx.
  assert (Hland : N.land (a * 2 ^ k) x = 0).
  { apply N.bits_inj. intros m. rewrite N.land_spec, N.bits_0.
    destruct (N.lt_ge_cases m k) as [Hm|Hm].
    - now rewrite N.mul_pow2_bits_low.
    - rewrite <- (N.mod_small x (2 ^ k)) by assumption.
      rewrite N.mod_pow2_bits_high by assumption. apply andb_false_r. }
  now rewrite N.add_nocarry_lxor, N.lxor_lor.
Qed.

Lemma surrogate_pair c :
  65536 <= c -> c < 1114112 ->
  let n := c - 65536 in
  let hi := N.lor 55296 (N.land (N.shiftr n 10) 1023) in
  let lo := N.lor 56320 (N.land n 1023) in
  (55296 <= hi /\ hi <= 56319) /\ (56320 <= lo /\ lo <= 57343)
  /\ 65536 + N.lor (N.shiftl (hi - 55296) 10) (lo - 56320) = c.
Proof.
  intros Hlo Hhi n hi lo.
  assert (Hh : hi = 55296 + n / 1024).
  { subst hi. change 1023 with (N.ones 10). rewrite N.land_ones, N.shiftr_div_pow2.
    change 55296 with (54 * 2 ^ 10) at 1. rewrite lor_disjoint by (apply N.mod_lt; discriminate).
    change (2 ^ 10) with 1024. rewrite N.mod_small; [dlia|].
    subst n. dlia. }
  assert (Hl : lo = 56320 + n mod 1024).
  { subst lo. change 1023 with (N.ones 10). rewrite N.land_ones.
    change 56320 with (55 * 2 ^ 10) at 1. rewrite lor_disjoint by (apply N.mod_lt; discriminate).
    reflexivity. }
  assert (Hq : n / 1024 < 1024) by (subst n; dlia).
  assert (Hr : n mod 1024 < 1024) by (apply N.mod_lt; discriminate).
  rewrite Hh, Hl. repeat split; try dlia.
  rewrite (N.add_comm 55296), (N.add_comm 56320), !N.add_sub.
  rewrite N.shiftl_mul_pow2, lor_disjoint by exact Hr.
  change (2 ^ 10) with 1024. subst n. dlia.
Qed.

Lemma scanstring_plain c r :
  c <> 34 -> c <> 92 -> 32 <= c ->
  scanstring (c :: r) = push_char c (scanstring r).
Proof.
  intros H1 H2 H3. cbn [scanstring].
  destruct (N.eqb_spec c 34); [contradiction|].
  destruct (N.eqb_spec c 92); [contradiction|].
  destruct (N.ltb_spec c 32); [lia | reflexivity].
Qed.

Lemma scanstring_short e ch r :
  unescape e = Some ch ->
  scanstring (92 :: e :: r) = push_char ch (scanstring r).
Proof.
  intros He. cbn [scanstring N.eqb Pos.eqb].
  destruct (N.eqb_spec e 117) as [->|_]; [discriminate|].
  now rewrite He.
Qed.

Lemma scanstring_u h1 h2 h3 h4 uni r :
  decode_hex4 h1 h2 h3 h4 = Some uni ->
  is_high_surrogate uni = false ->
  scanstring (92 :: 117 :: h1 :: h2 :: h3 :: h4 :: r)
  = push_char uni (scanstring r).
Proof.
  intros Hd Hs. cbn [scanstring N.eqb Pos.eqb]. now rewrite Hd, Hs.
Qed.

Lemma scanstring_pair h1 h2 h3 h4 l1 l2 l3 l4 uni uni2 r :
  decode_hex4 h1 h2 h3 h4 = Some uni ->
  is_high_surrogate uni = true ->
  decode_hex4 l1 l2 l3 l4 = Some uni2 ->
  is_low_surrogate uni2 = true ->
  scanstring (92 :: 117 :: h1 :: h2 :: h3 :: h4
              :: 92 :: 117 :: l1 :: l2 :: l3 :: l4 :: r)
  = push_char (65536 + N.lor (N.shiftl (uni - 55296) 10) (uni2 - 56320))
      (scanstring r).
Proof.
  intros Hd Hs Hd2 Hs2.
  remember (92 :: 117 :: l1 :: l2 :: l3 :: l4 :: r) as r2 eqn:Hr2.
  cbn [scanstring N.eqb Pos.eqb]. rewrite Hd, Hs. subst r2.
  cbn [andb N.eqb Pos.eqb]. now rewrite Hd2, Hs2.
Qed.

Lemma scanstring_escape_char e c r :
  (e = true -> is_scalar c = true) ->
  scanstring (escape_char e c ++ r) = push_char c (scanstring r).
Proof.
  intros Hc. unfold escape_char.
  destruct (escape_short c) as [x|] eqn:Hx.
  - cbn [app]. apply scanstring_short.
    revert Hx. unfold escape_short, unescape.
    repeat match goal with
           | |- context [c =? ?k] => destruct (N.eqb_spec c k) as [->|?]
           end; intros [= <-]; reflexivity.
  - assert (Hns : c <> 92 /\ c <> 34).
    { revert Hx. unfold escape_short.
      repeat match goal with
             | |- context [c =? ?k] => destruct (N.eqb_spec c k) as [->|?]
             end; (discriminate || tauto). }
    destruct Hns as [Hb Hq].
    assert (Hu : c < 55296 \/ 57343 < c -> c < 65536 ->
                 scanstring (escape_u c ++ r) = push_char c (scanstring r)).
    { intros Hsur Hlt. unfold escape_u. cbn [app].
      apply scanstring_u; [now apply decode_escape_u|].
      unfold is_high_surrogate. bools. }
    destruct (N.ltb_spec c 32) as [Hlt|Hge]; [apply Hu; lia|].
    destruct e; cbn [negb].
    + destruct (N.ltb_spec c 127); [now apply scanstring_plain|].
      specialize (Hc eq_refl). unfold is_scalar in Hc.
      destruct (N.ltb_spec c 65536) as [Hlow|Hhigh].
      * apply Hu; [|assumption]. revert Hc. bools. 
      * assert (Hmax : c < 1114112) by (revert Hc; bools).
        destruct (surrogate_pair c Hhigh Hmax) as ((Hh1 & Hh2) & (Hl1 & Hl2) & Heq).
        cbv zeta. unfold escape_u. cbn [app].
        erewrite scanstring_pair.
        -- rewrite Heq. reflexivity.
        -- apply decode_escape_u. lia.
        -- unfold is_high_surrogate. bools.
        -- apply decode_escape_u. lia.
        -- unfold is_low_surrogate. bools.
    + now apply scanstring_plain.
Qed.

Lemma scanstring_escaped e s r :
  str_ok_for e s = true ->
  scanstring (concat (map (escape_char e) s) ++ 34 :: r) = Some (s, r).
Proof.
  unfold str_ok_for. induction s as [|c s IH]; intros Hs.
  - reflexivity.
  - cbn [map concat]. rewrite <- app_assoc, scanstring_escape_char.
    + rewrite IH; [reflexivity|]. destruct e; [|reflexivity].
      now apply andb_prop in Hs as [_ Hs].
    + intros ->. now apply andb_prop in Hs as [Hs _].
Qed.

Lemma span_digits_uint u r :
  no_digit_head r -> span_digits (uint_text u ++ r) = (uint_text u, r).
Proof.
  intros Hr. induction u; cbn [uint_text app span_digits];
    try (change (is_digit _) with true; cbv iota; now rewrite IHu).
  destruct r as [|c r]; [reflexivity|]. cbn [span_digits]. simpl in Hr. now rewrite Hr.
Qed.

Lemma uint_of_text_uint u : uint_of_text (uint_text u) = u.
Proof. induction u; cbn; unfold uint_of_text in *; now f_equal. Qed.

Lemma to_uint_head p :
  exists c ds, uint_text (Pos.to_uint p) = c :: ds
               /\ is_digit c = true /\ c <> 48.
Proof.
  assert (Hn : Pos.to_uint p = Decimal.unorm (Pos.to_uint p)).
  { rewrite <- (DecimalPos.Unsigned.to_of (Pos.to_uint p)).
    now rewrite DecimalPos.Unsigned.of_to. }
  pose proof (DecimalPos.Unsigned.to_uint_nonzero p) as Hz.
  pose proof (nzhead_nonzero (Pos.to_uint p)) as Hh.
  unfold Decimal.unorm in Hn.
  destruct (Pos.to_uint p) as [|u|u|u|u|u|u|u|u|u|u] eqn:Hu;
    cbn [uint_text]; try (eexists _, _; split; [reflexivity|split; [reflexivity|discriminate]]).
  - simpl in Hn. discriminate.
  - exfalso. destruct (Decimal.nzhead (Decimal.D0 u)) as [|u0|u0|u0|u0|u0|u0|u0|u0|u0|u0];
      try discriminate; [now apply Hz | now apply (Hh u0)].
Qed.

Lemma uint_text_digits u : Forall (fun c => is_digit c = true) (uint_text u).
Proof. induction u; cbn [uint_text]; constructor; auto. Qed.

Lemma int_of_text_repr z : int_of_text (int_repr z) = z.
Proof.
  unfold int_repr. rewrite <- (DecimalZ.of_to z) at 2.
  destruct (Z.to_int z) as [u|u] eqn:Hz; unfold int_of_text.
  - destruct (uint_text u) as [|c ds] eqn:Hu.
    + destruct u; try discriminate. reflexivity.
    + pose proof (uint_text_digits u) as Hd. rewrite Hu in Hd.
      apply Forall_cons in Hd as [Hc _].
      destruct (N.eqb_spec c 45) as [->|_]; [discriminate|].
      now rewrite <- Hu, uint_of_text_uint.
  - cbn [N.eqb Pos.eqb]. now rewrite uint_of_text_uint.
Qed.

Lemma match_integer_repr z r :
  no_digit_head r -> match_integer (int_repr z ++ r) = Some (int_repr z, r).
Proof.
  intros Hr. unfold int_repr, Z.to_int.
  destruct z as [|p|p].
  - reflexivity.
  - destruct (to_uint_head p) as (c & ds & Hu & Hc & Hnz).
    unfold match_integer. rewrite Hu. cbn [app].
    pose proof (uint_text_digits (Pos.to_uint p)) as Hd. rewrite Hu in Hd.
    destruct (N.eqb_spec c 45) as [->|_]; [discriminate|].
    destruct (N.eqb_spec c 48); [contradiction|]. rewrite Hc.
    pose proof (span_digits_uint (Pos.to_uint p) r Hr) as Hs.
    rewrite Hu in Hs. cbn [app span_digits] in Hs. rewrite Hc in Hs.
    destruct (span_digits (ds ++ r)) as [ds' r']. now inversion Hs.
  - destruct (to_uint_head p) as (c & ds & Hu & Hc & Hnz).
    unfold match_integer. rewrite Hu. cbn [app N.eqb Pos.eqb].
    destruct (N.eqb_spec c 48); [contradiction|]. rewrite Hc.
    pose proof (span_digits_uint (Pos.to_uint p) r Hr) as Hs.
    rewrite Hu in Hs. cbn [app span_digits] in Hs. rewrite Hc in Hs.
    destruct (span_digits (ds ++ r)) as [ds' r']. now inversion Hs.
Qed.

Lemma delimited_no_digit r : delimited r -> no_digit_head r.
Proof. destruct r as [|c r]; [trivial|]. intros [->| ->]; reflexivity. Qed.

Lemma scan_number_int `{PyFloat} z r :
  delimited r -> scan_number (int_repr z ++ r) = Some (JInt z, r).
Proof.
  intros Hr. unfold scan_number.
  rewrite match_integer_repr by now apply delimited_no_digit.
  assert (Hf : match_frac r = ([], r)).
  { destruct r as [|c r]; [reflexivity|]. destruct Hr as [->| ->]; reflexivity. }
  assert (He : match_exp r = ([], r)).
  { destruct r as [|c r]; [reflexivity|]. destruct Hr as [->| ->]; reflexivity. }
  rewrite Hf, He. now rewrite int_of_text_repr.
Qed.

Section Roundtrip.
Context `{PyFloat}.

Lemma json_ind (P : json -> Prop) :
  P JNull -> (forall b, P (JBool b)) -> (forall z, P (JInt z)) ->
  (forall f, P (JFloat f)) -> (forall s, P (JStr s)) ->
  (forall items, Forall P items -> P (JArr items)) ->
  (forall members, Forall (fun kv => P (snd kv)) members -> P (JObj members)) ->
  (forall items, Forall P items -> P (JTuple items)) ->
  forall v, P v.
Proof.
  intros Hnull Hbool Hint Hfloat Hstr Harr Hobj Htuple.
  fix IH 1. intros [ |b|z|f|s|items|members|items].
  - exact Hnull.
  - apply Hbool.
  - apply Hint.
  - apply Hfloat.
  - apply Hstr.
  - apply Harr. induction items as [|x xs IHxs]; constructor; [apply IH | exact IHxs].
  - apply Hobj. induction members as [|[k x] ms IHms]; constructor; [apply IH | exact IHms].
  - apply Htuple. induction items as [|x xs IHxs]; constructor; [apply IH | exact IHxs].
Qed.

Lemma strip_prefix_app p r : strip_prefix p (p ++ r) = Some r.
Proof. induction p as [|a p IH]; [reflexivity|]. cbn. now rewrite N.eqb_refl. Qed.

Lemma skip_ws_indent level r :
  skip_ws (newline_indent level ++ r) = skip_ws r.
Proof.
  unfold newline_indent. cbn [app skip_ws]. change (is_ws 10) with true. cbv iota.
  induction (4 * level)%nat as [|k IH]; [reflexivity|exact IH].
Qed.

Lemma skip_ws_head c r : is_ws c = false -> skip_ws (c :: r) = c :: r.
Proof. intros Hc. cbn. now rewrite Hc. Qed.

Lemma int_repr_head z :
  exists c t, int_repr z = c :: t /\ (c = 45 \/ is_digit c = true).
Proof.
  unfold int_repr, Z.to_int. destruct z as [|p|p].
  - eexists _, _. split; [reflexivity|now right].
  - destruct (to_uint_head p) as (c & ds & -> & Hc & _). eauto.
  - eexists _, _. split; [reflexivity|now left].
Qed.

Lemma value_start_not_ws c : value_start c -> is_ws c = false /\ c <> 93 /\ c <> 125.
Proof.
  unfold value_start, is_digit, is_ws.
  intros [->|[->|[->|[->|[->|[->|[->|Hd]]]]]]]; try (repeat split; (reflexivity || discriminate)).
  revert Hd. bools; intros; repeat split; try lia; discriminate.
Qed.

(** No value starts with a blank or a closing bracket. *)
Lemma scan_once_head n c t res :
  scan_once (S n) (c :: t) = Some res -> is_ws c = false /\ c <> 93 /\ c <> 125.
Proof.
  intros Hs.
  assert (Hc : c <> 32 /\ c <> 9 /\ c <> 10 /\ c <> 13 /\ c <> 93 /\ c <> 125).
  { repeat split; intros ->; cbn in Hs; discriminate. }
  destruct Hc as (H1 & H2 & H3 & H4 & H5 & H6).
  split; [|now split]. unfold is_ws. bools; try reflexivity; lia.
Qed.

Lemma float_repr_head f :
  float_reads_back f ->
  exists c t, float_repr f = c :: t /\ is_ws c = false /\ c <> 93 /\ c <> 125.
Proof.
  intros Hf. specialize (Hf 0%nat [] I). rewrite app_nil_r in Hf.
  destruct (float_repr f) as [|c t]; [discriminate|].
  exists c, t. split; [reflexivity|]. now apply scan_once_head in Hf.
Qed.

Lemma encode_head e level v :
  round_trips e v ->
  exists c t, encode e level v = c :: t /\ is_ws c = false /\ c <> 93 /\ c <> 125.
Proof.
  destruct v as [ |[]|z|f|s|[|x xs]|[|[k x] ms]|items];
    cbn [encode round_trips]; intros Hwf;
    try contradiction;
    try (eexists _, _; split; [reflexivity|repeat split; (reflexivity || discriminate)]).
  - destruct (int_repr_head z) as (c & t & -> & Hc).
    exists c, t. split; [reflexivity|]. apply value_start_not_ws.
    unfold value_start. tauto.
  - now apply float_repr_head.
Qed.

Lemma skip_ws_encode e level v r :
  round_trips e v ->
  skip_ws (encode e level v ++ r) = encode e level v ++ r.
Proof.
  intros Hwf. destruct (encode_head e level v Hwf) as (c & t & -> & Hc & _).
  now apply skip_ws_head.
Qed.

Lemma scan_once_number n c t :
  c = 45 \/ is_digit c = true ->
  scan_once (S n) (c :: t)
  = match scan_number (c :: t) with
    | Some res => Some res
    | None => scan_constant (c :: t)
    end.
Proof.
  intros Hc.
  assert (Hne : c <> 34 /\ c <> 123 /\ c <> 91 /\ c <> 110 /\ c <> 116 /\ c <> 102).
  { destruct Hc as [->|Hc]; [repeat split; discriminate|].
    unfold is_digit in Hc. apply andb_prop in Hc as [Ha Hb].
    apply N.leb_le in Ha, Hb. repeat split; lia. }
  destruct Hne as (H1 & H2 & H3 & H4 & H5 & H6).
  cbn [scan_once].
  destruct (N.eqb_spec c 34); [contradiction|].
  destruct (N.eqb_spec c 123); [contradiction|].
  destruct (N.eqb_spec c 91); [contradiction|].
  change (lit "null") with [110; 117; 108; 108].
  change (lit "true") with [116; 114; 117; 101].
  change (lit "false") with [102; 97; 108; 115; 101].
  cbn [strip_prefix].
  destruct (N.eqb_spec 110 c); [congruence|].
  destruct (N.eqb_spec 116 c); [congruence|].
  destruct (N.eqb_spec 102 c); [congruence|].
  reflexivity.
Qed.

Lemma delimited_indent level r : delimited (newline_indent level ++ r).
Proof. now right. Qed.

Lemma delimited_comma r : delimited (44 :: r).
Proof. now left. Qed.

Lemma join_cons sep c cs :
  cs <> [] -> join sep (c :: cs) = c ++ sep ++ join sep cs.
Proof. destruct cs; [contradiction | reflexivity]. Qed.

Lemma skip_ws_join e level sep x xs t :
  round_trips e x ->
  skip_ws (join sep (map (encode e level) (x :: xs)) ++ t)
  = join sep (map (encode e level) (x :: xs)) ++ t.
Proof.
  intros Hwx. destruct (encode_head e level x Hwx) as (c & t' & Hx & Hc & _).
  cbn [map]. destruct (map (encode e level) xs); cbn [join]; rewrite Hx;
    now apply skip_ws_head.
Qed.

Lemma parse_items_encoded e level items r :
  items <> [] ->
  Forall (reads_back e) items ->
  fold_right (fun x P => round_trips e x /\ P) True items ->
  forall n,
    (S (length (join (44%N :: newline_indent (S level))
                  (map (encode e (S level)) items))) < n)%nat ->
    parse_items n (join (44 :: newline_indent (S level))
                     (map (encode e (S level)) items)
                   ++ newline_indent level ++ 93 :: r)
    = Some (items, r).
Proof.
  intros Hne HP. induction HP as [|x xs Hx Hxs IH]; [contradiction|].
  intros Hwf n Hn. cbn [fold_right] in Hwf. destruct Hwf as [Hwx Hwxs].
  destruct n as [|n]; [lia|].
  destruct xs as [|y ys].
  - cbn [map join] in *. cbn [parse_items].
    rewrite Hx; [|assumption|apply delimited_indent|lia].
    rewrite skip_ws_indent. now cbn.
  - assert (Hys : y :: ys <> []) by discriminate.
    specialize (IH Hys Hwxs n).
    assert (Hwy : round_trips e y).
    { cbn [fold_right] in Hwxs. now destruct Hwxs as [Hwy _]. }
    change (map (encode e (S level)) (x :: y :: ys)) with
      (encode e (S level) x :: map (encode e (S level)) (y :: ys)) in *.
    rewrite join_cons in Hn |- * by discriminate.
    rewrite !length_app in Hn. cbn [length] in Hn.
    cbn [parse_items]. rewrite <- !app_assoc.
    rewrite Hx; [|assumption|apply delimited_comma|lia].
    cbn [app]. change (skip_ws (44 :: ?t)) with (44 :: t). cbn [N.eqb Pos.eqb].
    rewrite skip_ws_indent, skip_ws_join by assumption.
    rewrite IH; [reflexivity|lia].
Qed.

Lemma parse_members_encoded e level members r :
  members <> [] ->
  Forall (fun kv => reads_back e (snd kv)) members ->
  fold_right (fun kv P => let '(k, x) := kv in
                (str_ok_for e k = true /\ round_trips e x) /\ P)
    True members ->
  forall n,
    (S (length (join (44%N :: newline_indent (S level))
                  (map (member_chunk e (S level)) members))) < n)%nat ->
    exists t,
      join (44 :: newline_indent (S level))
        (map (member_chunk e (S level)) members) = 34 :: t
      /\ parse_members n (t ++ newline_indent level ++ 125 :: r)
         = Some (members, r).
Proof.
  intros Hne HP. induction HP as [|[k x] ms Hx Hms IH]; [contradiction|].
  intros Hwf n Hn. cbn [fold_right] in Hwf.
  destruct Hwf as [[Hk Hwx] Hwms].
  cbn [snd] in Hx.
  destruct n as [|n]; [lia|].
  destruct ms as [|m ms'].
  - cbn [map join member_chunk] in Hn |- *. unfold encode_string in Hn |- *.
    change (lit ": ") with [58; 32] in Hn |- *.
    eexists. split; [reflexivity|].
    rewrite !length_app in Hn. cbn [length] in Hn.
    cbn [parse_members]. repeat rewrite <- app_assoc. cbn [app].
    rewrite scanstring_escaped by assumption.
    change (skip_ws (58 :: ?t)) with (58 :: t). cbn [N.eqb Pos.eqb].
    change (skip_ws (32 :: ?t)) with (skip_ws t).
    rewrite skip_ws_encode by assumption.
    rewrite Hx; [|assumption|apply delimited_indent|lia].
    rewrite skip_ws_indent. now cbn.
  - assert (Hmm : m :: ms' <> []) by discriminate.
    destruct (IH Hmm Hwms n) as (t' & Ht' & Hparse).
    { change (map (member_chunk e (S level)) ((k, x) :: m :: ms')) with
        (member_chunk e (S level) (k, x) :: map (member_chunk e (S level)) (m :: ms')) in Hn.
      rewrite join_cons in Hn by discriminate.
      rewrite !length_app in Hn. cbn [length] in Hn. lia. }
    change (map (member_chunk e (S level)) ((k, x) :: m :: ms')) with
      (member_chunk e (S level) (k, x) :: map (member_chunk e (S level)) (m :: ms')) in *.
    rewrite join_cons in Hn |- * by discriminate.
    rewrite Ht' in Hn |- *.
    cbn [member_chunk] in Hn |- *. unfold encode_string in Hn |- *.
    change (lit ": ") with [58; 32] in Hn |- *.
    eexists. split; [reflexivity|].
    rewrite !length_app in Hn. cbn [length] in Hn. rewrite !length_app in Hn. cbn [length] in Hn.
    cbn [parse_members]. repeat rewrite <- app_assoc. cbn [app].
    rewrite scanstring_escaped by assumption.
    change (skip_ws (58 :: ?t)) with (58 :: t). cbn [N.eqb Pos.eqb].
    change (skip_ws (32 :: ?t)) with (skip_ws t).
    rewrite skip_ws_encode by assumption.
    rewrite Hx; [|assumption|apply delimited_comma|lia].
    change (skip_ws (44 :: ?t)) with (44 :: t). cbn [N.eqb Pos.eqb].
    rewrite skip_ws_indent.
    change (skip_ws (34 :: ?t)) with (34 :: t). cbn [N.eqb Pos.eqb].
    now rewrite Hparse.
Qed.

Lemma join_head e level sep x xs :
  round_trips e x ->
  exists c t, join sep (map (encode e level) (x :: xs)) = c :: t /\ c <> 93.
Proof.
  intros Hwx. destruct (encode_head e level x Hwx) as (c & t & Hx & _ & Hc & _).
  cbn [map]. destruct (map (encode e level) xs); cbn [join]; rewrite Hx;
    cbn [app]; eauto.
Qed.

Theorem scan_once_encode e v : reads_back e v.
Proof.
  induction v as [ |b|z|f|s|items IH|members IH|items IH] using json_ind;
    intros level n r Hwf Hr Hn;
    (destruct n as [|n]; [cbn in Hn; lia|]).
  - reflexivity.
  - destruct b; reflexivity.
  - cbn [encode]. destruct (int_repr_head z) as (c & t & Hz & Hc).
    rewrite Hz. cbn [app]. rewrite scan_once_number by assumption.
    change (c :: t ++ r) with ((c :: t) ++ r). rewrite <- Hz.
    now rewrite scan_number_int.
  - exact (Hwf n r Hr).
  - cbn [encode round_trips] in *. unfold encode_string.
    cbn [app scan_once N.eqb Pos.eqb]. rewrite <- app_assoc. cbn [app].
    now rewrite scanstring_escaped.
  - destruct items as [|x xs]; [reflexivity|].
    cbn [encode round_trips] in Hwf, Hn |- *.
    assert (Hwx : round_trips e x).
    { cbn [fold_right] in Hwf. now destruct Hwf as [Hwx _]. }
    rewrite !length_app in Hn. cbn [length] in Hn.
    cbn [app scan_once N.eqb Pos.eqb]. repeat rewrite <- app_assoc.
    rewrite skip_ws_indent, skip_ws_join by assumption.
    destruct (join_head e (S level) (44 :: newline_indent (S level)) x xs Hwx)
      as (c & t & Hj & Hc).
    pose proof (parse_items_encoded e level (x :: xs) r ltac:(discriminate) IH Hwf n)
      as Hitems.
    rewrite Hj in Hitems, Hn |- *. cbn [app] in Hitems |- *.
    destruct (N.eqb_spec c 93); [contradiction|].
    rewrite Hitems; [reflexivity|]. cbn [length] in *. lia.
  - destruct members as [|[k x] ms]; [reflexivity|].
    cbn [encode round_trips] in Hwf, Hn |- *.
    destruct Hwf as [Hnd Hwf].
    change (fun kv : text * json => let '(k0, x0) := kv in
              encode_string e k0 ++ lit ": " ++ encode e (S level) x0)
      with (member_chunk e (S level)) in Hn |- *.
    rewrite !length_app in Hn. cbn [length] in Hn.
    cbn [app scan_once N.eqb Pos.eqb]. repeat rewrite <- app_assoc.
    rewrite skip_ws_indent.
    destruct (parse_members_encoded e level ((k, x) :: ms) r
                ltac:(discriminate) IH Hwf n) as (t & Hj & Hparse); [lia|].
    rewrite Hj. cbn [app]. change (skip_ws (34 :: ?u)) with (34 :: u).
    cbn [N.eqb Pos.eqb]. rewrite Hparse.
    now rewrite dict_of_pairs_nodup.
  - contradiction.
Qed.

(** A dump followed by a load gives back a value made of what [json.load]
    returns. *)
Theorem loads_dumps_round_trips e v :
  round_trips e v -> loads (dumps e v) = Some v.
Proof.
  intros Hwf. unfold loads, dumps.
  pose proof (skip_ws_encode e 0 v [] Hwf) as Hs.
  pose proof (scan_once_encode e v 0%nat (S (length (encode e 0 v))) [] Hwf I
                ltac:(lia)) as Hscan.
  rewrite app_nil_r in Hs, Hscan. now rewrite Hs, Hscan.
Qed.

(** A well-formed value is such a value, with no float. *)
Lemma well_formed_round_trips e v :
  well_formed (str_ok_for e) v = true -> round_trips e v.
Proof.
  induction v as [ |b|z|f|s|items IH|members IH|items IH] using json_ind;
    cbn [well_formed round_trips]; intros Hwf;
    try exact I; try discriminate; try assumption.
  - induction IH as [|x xs Hx _ IHxs]; [exact I|].
    cbn [forallb fold_right] in Hwf |- *.
    apply andb_prop in Hwf as [Hwx Hwxs]. split; [now apply Hx | now apply IHxs].
  - apply andb_prop in Hwf as [Hnd Hwf]. apply bool_decide_eq_true in Hnd.
    split; [assumption|]. clear Hnd.
    induction IH as [|[k x] ms Hx _ IHms]; [exact I|].
    cbn [forallb fold_right snd] in Hwf, Hx |- *.
    apply andb_prop in Hwf as [Hkx Hwms]. apply andb_prop in Hkx as [Hk Hwx].
    split; [split; [assumption | now apply Hx] | now apply IHms].
Qed.

(** A dump followed by a load gives back a well-formed value. *)
Theorem loads_dumps e v :
  well_formed (str_ok_for e) v = true -> loads (dumps e v) = Some v.
Proof. intros Hwf. now apply loads_dumps_round_trips, well_formed_round_trips. Qed.

End Roundtrip.

(** ** The decoder never stops for lack of fuel *)

Lemma skip_ws_length s : (length (skip_ws s) <= length s)%nat.
Proof.
  induction s as [|c s IH]; cbn [skip_ws]; [lia|].
  destruct (is_ws c); cbn [length]; lia.
Qed.

Lemma strip_prefix_length p s r :
  strip_prefix p s = Some r -> length s = (length p + length r)%nat.
Proof.
  revert s. induction p as [|a p IH]; intros s; cbn [strip_prefix length].
  - now intros [= ->].
  - destruct s as [|b s]; [discriminate|].
    destruct (a =? b); [|discriminate]. intros Hs%IH. cbn [length]. lia.
Qed.

Lemma span_digits_length s ds r :
  span_digits s = (ds, r) -> length s = (length ds + length r)%nat.
Proof.
  revert ds r. induction s as [|c s IH]; intros ds r; cbn [span_digits].
  - now intros [= <- <-].
  - destruct (is_digit c).
    + destruct (span_digits s) as [ds' r'] eqn:Hs. intros [= <- <-].
      cbn [length]. specialize (IH ds' r' eq_refl). lia.
    + now intros [= <- <-].
Qed.

Lemma push_char_some c res str r :
  push_char c res = Some (str, r) ->
  exists str', res = Some (str', r) /\ str = c :: str'.
Proof. destruct res as [[str' r']|]; [|discriminate]. intros [= <- <-]. eauto. Qed.

Lemma scanstring_length s str r :
  scanstring s = Some (str, r) -> (length r < length s)%nat.
Proof.
  remember (length s) as k eqn:Hk. revert s str r Hk.
  induction k as [k IH] using lt_wf_ind. intros s str r Hk Hs.
  assert (Hrec : forall s' str' c, (length s' < k)%nat ->
                   push_char c (scanstring s') = Some (str', r) ->
                   (length r < length s')%nat).
  { intros s' str' c Hlt (str'' & Hs' & _)%push_char_some.
    exact (IH _ Hlt s' str'' r eq_refl Hs'). }
  destruct s as [|c s]; [discriminate|]. cbn [scanstring] in Hs. cbn [length] in Hk.
  destruct (c =? 34); [injection Hs as <- <-; cbn [length]; lia|].
  destruct (c =? 92).
  - destruct s as [|e r1]; [discriminate|]. cbn [length] in Hk.
    destruct (e =? 117).
    + destruct r1 as [|h1 [|h2 [|h3 [|h4 r2]]]]; try discriminate. cbn [length] in Hk.
      destruct (decode_hex4 h1 h2 h3 h4) as [uni|]; [|discriminate].
      assert (Hlone : forall str', push_char uni (scanstring r2) = Some (str', r) ->
                        (length r < k)%nat).
      { intros str' Hp. apply Hrec in Hp; lia. }
      destruct (is_high_surrogate uni); [|apply (Hlone _ Hs)].
      destruct r2 as [|b [|u r3]]; try apply (Hlone _ Hs).
      destruct ((b =? 92) && (u =? 117)); [|apply (Hlone _ Hs)].
      destruct r3 as [|l1 [|l2 [|l3 [|l4 r4]]]]; try discriminate.
      destruct (decode_hex4 l1 l2 l3 l4) as [uni2|]; [|discriminate].
      destruct (is_low_surrogate uni2); [|apply (Hlone _ Hs)].
      apply Hrec in Hs; cbn [length] in *; lia.
    + destruct (unescape e); [|discriminate]. apply Hrec in Hs; lia.
  - destruct (c <? 32); [discriminate|]. apply Hrec in Hs; lia.
Qed.

Lemma match_integer_length s i r :
  match_integer s = Some (i, r) -> (length r < length s)%nat.
Proof.
  unfold match_integer.
  assert (Haux : forall sign s1,
            match s1 with
            | c :: r0 =>
                if c =? 48 then Some (sign ++ [48], r0)
                else if is_digit c then
                  let '(ds, r') := span_digits r0 in Some (sign ++ c :: ds, r')
                else None
            | [] => None
            end = Some (i, r) -> (length r < length s1)%nat).
  { intros sign [|c r0]; [discriminate|].
    destruct (c =? 48); [intros [= <- <-]; cbn [length]; lia|].
    destruct (is_digit c); [|discriminate].
    destruct (span_digits r0) as [ds r'] eqn:Hsp. intros [= <- <-].
    apply span_digits_length in Hsp. cbn [length]. lia. }
  destruct s as [|c s]; [discriminate|].
  destruct (c =? 45); intros Hm;
    [apply (Haux [45] s) in Hm | apply (Haux [] (c :: s)) in Hm];
    cbn [length] in *; lia.
Qed.

Lemma match_frac_length s f r :
  match_frac s = (f, r) -> (length r <= length s)%nat.
Proof.
  unfold match_frac. destruct s as [|c s]; [now intros [= <- <-]|].
  destruct (c =? 46); [|now intros [= <- <-]].
  destruct (span_digits s) as [[|d ds] r'] eqn:Hsp; intros [= <- <-]; [lia|].
  apply span_digits_length in Hsp. cbn [length] in *. lia.
Qed.

Lemma match_exp_length s x r :
  match_exp s = (x, r) -> (length r <= length s)%nat.
Proof.
  unfold match_exp. destruct s as [|c s]; [now intros [= <- <-]|].
  destruct ((c =? 101) || (c =? 69)); [|now intros [= <- <-]].
  destruct s as [|c' r'].
  - cbn. intros [= <- <-]. cbn [length]. lia.
  - destruct ((c' =? 45) || (c' =? 43)).
    + destruct (span_digits r') as [[|d ds] r2] eqn:Hsp; intros [= <- <-]; [lia|].
      apply span_digits_length in Hsp. cbn [length] in *. lia.
    + destruct (span_digits (c' :: r')) as [[|d ds] r2] eqn:Hsp;
        intros [= <- <-]; [lia|].
      apply span_digits_length in Hsp. cbn [length] in *. lia.
Qed.

Lemma scan_number_length `{PyFloat} s v r :
  scan_number s = Some (v, r) -> (length r < length s)%nat.
Proof.
  unfold scan_number. destruct (match_integer s) as [[i r0]|] eqn:Hi; [|discriminate].
  destruct (match_frac r0) as [f r1] eqn:Hf. destruct (match_exp r1) as [x r2] eqn:Hx.
  apply match_integer_length in Hi. apply match_frac_length in Hf.
  apply match_exp_length in Hx.
  destruct f, x; intros [= <- <-]; lia.
Qed.

Lemma scan_constant_length `{PyFloat} s v r :
  scan_constant s = Some (v, r) -> (length r < length s)%nat.
Proof.
  unfold scan_constant.
  destruct (strip_prefix (lit "NaN") s) eqn:H1;
    [apply strip_prefix_length in H1; intros [= <- <-]; cbn in H1; lia|].
  destruct (strip_prefix (lit "Infinity") s) eqn:H2;
    [apply strip_prefix_length in H2; intros [= <- <-]; cbn in H2; lia|].
  destruct (strip_prefix (lit "-Infinity") s) eqn:H3;
    [apply strip_prefix_length in H3; intros [= <- <-]; cbn in H3; lia|].
  discriminate.
Qed.

Section Fuel.
Context `{PyFloat}.

Lemma scan_once_scalar_length s v r :
  match strip_prefix (lit "null") s with
  | Some r' => Some (JNull, r')
  | None =>
  match strip_prefix (lit "true") s with
  | Some r' => Some (JBool true, r')
  | None =>
  match strip_prefix (lit "false") s with
  | Some r' => Some (JBool false, r')
  | None =>
  match scan_number s with
  | Some res => Some res
  | None => scan_constant s
  end end end end = Some (v, r) ->
  (length r < length s)%nat.
Proof.
  destruct (strip_prefix (lit "null") s) eqn:H1;
    [apply strip_prefix_length in H1; intros [= <- <-]; cbn in H1; lia|].
  destruct (strip_prefix (lit "true") s) eqn:H2;
    [apply strip_prefix_length in H2; intros [= <- <-]; cbn in H2; lia|].
  destruct (strip_prefix (lit "false") s) eqn:H3;
    [apply strip_prefix_length in H3; intros [= <- <-]; cbn in H3; lia|].
  destruct (scan_number s) as [[v' r']|] eqn:H4.
  - intros [= <- <-]. now apply scan_number_length in H4.
  - apply scan_constant_length.
Qed.

Lemma scan_once_adequate n :
  fuel_adequate scan_once n /\ fuel_adequate parse_items n
  /\ fuel_adequate parse_members n.
Proof.
  induction n as [|n (IHv & IHi & IHm)];
    [split; [|split]; intros s x r; discriminate|].
  split; [|split].
  - (* scan_once *)
    intros s v r Hs. destruct s as [|c r0]; [discriminate|].
    cbn [scan_once] in Hs. cbn [length].
    destruct (c =? 34) eqn:E1.
    { destruct (scanstring r0) as [[str r']|] eqn:Hstr; [|discriminate].
      injection Hs as <- <-. apply scanstring_length in Hstr as Hlen.
      split; [lia|]. intros [|m] Hm; [lia|]. cbn [scan_once].
      now rewrite E1, Hstr. }
    destruct (c =? 123) eqn:E2.
    { pose proof (skip_ws_length r0) as Hws.
      destruct (skip_ws r0) as [|c' r'] eqn:Hsk; [discriminate|]. cbn [length] in Hws.
      destruct (c' =? 125) eqn:E3.
      { injection Hs as <- <-. split; [lia|]. intros [|m] Hm; [lia|].
        cbn [scan_once]. now rewrite E1, E2, Hsk, E3. }
      destruct (c' =? 34) eqn:E4; [|discriminate].
      destruct (parse_members n r') as [[pairs r'']|] eqn:Hp; [|discriminate].
      injection Hs as <- <-. destruct (IHm _ _ _ Hp) as [Hlen Hfuel].
      split; [lia|]. intros [|m] Hm; [lia|].
      cbn [scan_once]. rewrite E1, E2, Hsk, E3, E4, Hfuel; [reflexivity|lia]. }
    destruct (c =? 91) eqn:E3.
    { pose proof (skip_ws_length r0) as Hws.
      destruct (skip_ws r0) as [|c' r'] eqn:Hsk; [discriminate|]. cbn [length] in Hws.
      destruct (c' =? 93) eqn:E4.
      { injection Hs as <- <-. split; [lia|]. intros [|m] Hm; [lia|].
        cbn [scan_once]. now rewrite E1, E2, E3, Hsk, E4. }
      destruct (parse_items n (c' :: r')) as [[items r'']|] eqn:Hp; [|discriminate].
      injection Hs as <- <-. destruct (IHi _ _ _ Hp) as [Hlen Hfuel].
      cbn [length] in Hlen, Hfuel.
      split; [lia|]. intros [|m] Hm; [lia|].
      cbn [scan_once]. rewrite E1, E2, E3, Hsk, E4, Hfuel; [reflexivity|lia]. }
    apply scan_once_scalar_length in Hs as Hlen. cbn [length] in Hlen.
    split; [exact Hlen|]. intros [|m] Hm; [lia|].
    cbn [scan_once]. now rewrite E1, E2, E3.
  - (* parse_items *)
    intros s vs r Hs. cbn [parse_items] in Hs.
    destruct (scan_once n s) as [[v r1]|] eqn:Hv; [|discriminate].
    destruct (IHv _ _ _ Hv) as [Hlen1 Hfuel1].
    pose proof (skip_ws_length r1) as Hws.
    destruct (skip_ws r1) as [|c r'] eqn:Hsk; [discriminate|]. cbn [length] in Hws.
    destruct (c =? 93) eqn:E1.
    { injection Hs as <- <-. split; [lia|]. intros [|m] Hm; [lia|].
      cbn [parse_items]. rewrite Hfuel1 by lia. now rewrite Hsk, E1. }
    destruct (c =? 44) eqn:E2; [|discriminate].
    destruct (parse_items n (skip_ws r')) as [[vs' r'']|] eqn:Hp; [|discriminate].
    injection Hs as <- <-. destruct (IHi _ _ _ Hp) as [Hlen2 Hfuel2].
    pose proof (skip_ws_length r') as Hws'.
    split; [lia|]. intros [|m] Hm; [lia|].
    cbn [parse_items]. rewrite Hfuel1 by lia. rewrite Hsk, E1, E2, Hfuel2; [reflexivity|lia].
  - (* parse_members *)
    intros s ps r Hs. cbn [parse_members] in Hs.
    destruct (scanstring s) as [[key r0]|] eqn:Hk; [|discriminate].
    apply scanstring_length in Hk as Hlen0.
    pose proof (skip_ws_length r0) as Hws0.
    destruct (skip_ws r0) as [|c r1] eqn:Hsk0; [discriminate|]. cbn [length] in Hws0.
    destruct (c =? 58) eqn:E1; [|discriminate].
    destruct (scan_once n (skip_ws r1)) as [[v r2]|] eqn:Hv; [|discriminate].
    destruct (IHv _ _ _ Hv) as [Hlen1 Hfuel1].
    pose proof (skip_ws_length r1) as Hws1.
    pose proof (skip_ws_length r2) as Hws2.
    destruct (skip_ws r2) as [|c' r3] eqn:Hsk2; [discriminate|]. cbn [length] in Hws2.
    destruct (c' =? 125) eqn:E2.
    { injection Hs as <- <-. split; [lia|]. intros [|m] Hm; [lia|].
      cbn [parse_members]. rewrite Hk, Hsk0, E1, Hfuel1 by lia. now rewrite Hsk2, E2. }
    destruct (c' =? 44) eqn:E3; [|discriminate].
    pose proof (skip_ws_length r3) as Hws3.
    destruct (skip_ws r3) as [|q r4] eqn:Hsk3; [discriminate|]. cbn [length] in Hws3.
    destruct (q =? 34) eqn:E4; [|discriminate].
    destruct (parse_members n r4) as [[ps' r5]|] eqn:Hp; [|discriminate].
    injection Hs as <- <-. destruct (IHm _ _ _ Hp) as [Hlen2 Hfuel2].
    split; [lia|]. intros [|m] Hm; [lia|].
    cbn [parse_members]. rewrite Hk, Hsk0, E1, Hfuel1 by lia.
    rewrite Hsk2, E2, E3, Hsk3, E4, Hfuel2; [reflexivity|lia].
Qed.

(** [loads] allows as many nested calls as any text needs: a text that
    [loads] rejects is rejected whatever the allowance. *)
Theorem loads_complete s n v r :
  scan_once n (skip_ws s) = Some (v, r) -> skip_ws r = [] ->
  loads s = Some v.
Proof.
  intros Hscan Hrest. unfold loads.
  destruct (scan_once_adequate n) as (Hv & _ & _).
  destruct (Hv _ _ _ Hscan) as [_ Hfuel].
  pose proof (skip_ws_length s) as Hws.
  rewrite Hfuel by lia. now rewrite Hrest.
Qed.

End Fuel.

(** ** What [ensure_ascii=True] writes *)

Lemma hex_digit_ascii d : d < 16 -> hex_digit d < 128.
Proof. intros Hd. unfold hex_digit. bools. Qed.

Lemma escape_u_ascii n : ascii_text (escape_u n).
Proof.
  unfold escape_u, ascii_text.
  repeat (constructor; [first [reflexivity | apply hex_digit_ascii, N.mod_lt; discriminate]|]).
  constructor.
Qed.

Lemma ascii_text_app t1 t2 : ascii_text t1 -> ascii_text t2 -> ascii_text (t1 ++ t2).
Proof. intros H1 H2. now apply Forall_app. Qed.

Lemma escape_char_ascii c : ascii_text (escape_char true c).
Proof.
  unfold escape_char. destruct (escape_short c) as [x|] eqn:Hx.
  - revert Hx. unfold escape_short.
    repeat match goal with
           | |- context [c =? ?k] => destruct (N.eqb_spec c k)
           end; intros [= <-]; repeat constructor.
  - cbn [negb].
    destruct (N.ltb_spec c 32); [apply escape_u_ascii|].
    destruct (N.ltb_spec c 127); [repeat constructor; lia|].
    destruct (N.ltb_spec c 65536); [apply escape_u_ascii|].
    apply ascii_text_app; apply escape_u_ascii.
Qed.

Lemma encode_string_ascii s : ascii_text (encode_string true s).
Proof.
  unfold encode_string. constructor; [reflexivity|].
  apply ascii_text_app; [|repeat constructor].
  induction s as [|c s IH]; [constructor|].
  cbn [map concat]. apply ascii_text_app; [apply escape_char_ascii | exact IH].
Qed.

Lemma int_repr_ascii z : ascii_text (int_repr z).
Proof.
  assert (Hu : forall u, ascii_text (uint_text u)).
  { induction u; cbn [uint_text]; constructor; (reflexivity || assumption). }
  unfold int_repr. destruct (Z.to_int z); [apply Hu|].
  constructor; [reflexivity | apply Hu].
Qed.

Lemma newline_indent_ascii level : ascii_text (newline_indent level).
Proof.
  unfold newline_indent. constructor; [reflexivity|].
  induction (4 * level)%nat; constructor; (reflexivity || assumption).
Qed.

Lemma join_ascii sep chunks :
  ascii_text sep -> Forall ascii_text chunks -> ascii_text (join sep chunks).
Proof.
  intros Hsep Hch. induction Hch as [|c cs Hc Hcs IH]; [constructor|].
  destruct cs as [|c' cs]; [exact Hc|].
  change (join sep (c :: c' :: cs)) with (c ++ sep ++ join sep (c' :: cs)).
  auto using ascii_text_app.
Qed.

Section Ascii.
Context `{PyFloat}.

Lemma encode_ascii v : forall level, ascii_text (encode true level v).
Proof.
  induction v as [ |b|z|f|s|items IH|members IH|items IH] using json_ind; intros level.
  - repeat constructor.
  - destruct b; repeat constructor.
  - apply int_repr_ascii.
  - cbn [encode]. apply Forall_forall. intros c Hc.
    pose proof (float_repr_ascii f) as Hf.
    rewrite forallb_forall in Hf. apply N.ltb_lt, Hf. now apply list_elem_of_In.
  - apply encode_string_ascii.
  - destruct items as [|x xs]; [repeat constructor|]. cbn [encode].
    repeat apply ascii_text_app; try apply newline_indent_ascii; try (repeat constructor; fail).
    apply join_ascii; [constructor; [reflexivity|apply newline_indent_ascii]|].
    apply Forall_map. eapply Forall_impl; [exact IH|]. intros y Hy. apply Hy.
  - destruct members as [|[k x] ms]; [repeat constructor|]. cbn [encode].
    repeat apply ascii_text_app; try apply newline_indent_ascii; try (repeat constructor; fail).
    apply join_ascii; [constructor; [reflexivity|apply newline_indent_ascii]|].
    apply Forall_map. eapply Forall_impl; [exact IH|]. intros [k' y] Hy. cbn [snd] in Hy.
    repeat apply ascii_text_app; [apply encode_string_ascii|repeat constructor|apply Hy].
  - destruct items as [|x xs]; [repeat constructor|]. cbn [encode].
    repeat apply ascii_text_app; try apply newline_indent_ascii; try (repeat constructor; fail).
    apply join_ascii; [constructor; [reflexivity|apply newline_indent_ascii]|].
    apply Forall_map. eapply Forall_impl; [exact IH|]. intros y Hy. apply Hy.
Qed.

Lemma dumps_ascii_encodable v : forallb is_scalar (dumps true v) = true.
Proof.
  apply forallb_forall. intros c Hc.
  pose proof (encode_ascii v 0) as Ha. unfold ascii_text in Ha.
  rewrite Forall_forall in Ha. apply list_elem_of_In, Ha in Hc.
  unfold is_scalar. bools.
Qed.

End Ascii.

(** ** The key-value store in memory *)

Section StoreFacts.
Context `{PyFloat}.

Lemma set_inv key value self w self' w' :
  KeyValueStore.set key value self w = Ok (self', w') ->
  exists d, KeyValueStore._data self = JObj d
            /\ self' = KeyValueStore.with_data self (JObj (dict_set key value d))
            /\ KeyValueStore._save self' w = Ok (tt, w').
Proof.
  unfold KeyValueStore.set, bind, lift, ret.
  destruct (KeyValueStore._data self) eqn:Hd; simpl; try discriminate.
  destruct (KeyValueStore._save _ w) as [[[] w1]|e] eqn:Hs; [|discriminate].
  intros [= <- <-]. eauto.
Qed.

(** C2. After a successful [set(key, value)], [get(key)] returns [value]
    and [has(key)] is true. *)
Theorem set_then_get_has key value self w self' w' :
  KeyValueStore.set key value self w = Ok (self', w') ->
  KeyValueStore.get self' key = Ok value
  /\ KeyValueStore.has self' key = Ok true.
Proof.
  intros (d & _ & -> & _)%set_inv.
  unfold KeyValueStore.get, KeyValueStore.has; simpl.
  now rewrite dict_get_set_eq, dict_has_set.
Qed.

(** C10. After a successful [set(key, None)], [has(key)] is true and
    [get(key)] returns [None], which is also what [get] returns in a store
    that does not hold the key: [get] alone does not tell the two apart. *)
Theorem set_none_looks_absent key self w self' w' :
  KeyValueStore.set key JNull self w = Ok (self', w') ->
  KeyValueStore.has self' key = Ok true
  /\ KeyValueStore.get self' key = Ok JNull
  /\ forall other d,
       KeyValueStore._data other = JObj d ->
       KeyValueStore.has other key = Ok false ->
       KeyValueStore.get other key = KeyValueStore.get self' key.
Proof.
  intros (d0 & _ & -> & _)%set_inv.
  unfold KeyValueStore.get, KeyValueStore.has; simpl.
  rewrite dict_get_set_eq, dict_has_set. repeat split.
  intros other d -> [= Hhas]. simpl.
  unfold dict_has in Hhas. now destruct (dict_get key d).
Qed.

(** C4. [remove(key)] on a key that is not in the store returns without an
    error and leaves the store and the process, and so the backing file, as
    they were. *)
Theorem remove_absent_noop key self w :
  KeyValueStore.has self key = Ok false ->
  KeyValueStore.remove key self w = Ok (self, w).
Proof.
  unfold KeyValueStore.has, KeyValueStore.remove, bind, lift, ret.
  now intros ->.
Qed.

End StoreFacts.

(** ** The key-value store and its file *)

Section StoreFile.
Context `{PyFloat}.

Lemma init_path name cwd w :
  KeyValueStore.__init__ name cwd w
  = let self := {| KeyValueStore._data := JObj [];
                   KeyValueStore._name := KeyValueStore.store_name name;
                   KeyValueStore._path := KeyValueStore.path_of name cwd w |} in
    match fs w !! KeyValueStore.path_of name cwd w with
    | Some (File _) => KeyValueStore._load self w
    | _ => Ok (self, w)
    end.
Proof.
  unfold KeyValueStore.__init__, KeyValueStore.path_of, KeyValueStore.store_dir,
    bind, ret, os_getcwd, os_path_isfile.
  destruct cwd as [[|c r]|]; cbn;
    match goal with |- context [fs w !! ?p] => destruct (fs w !! p) as [[|]|] end;
    reflexivity.
Qed.

(** C6. When the file of the store exists and its content is not valid
    JSON, the constructor raises [JSONDecodeError]: it returns no store,
    empty or otherwise. *)
Theorem init_malformed_raises name cwd w content :
  fs w !! KeyValueStore.path_of name cwd w = Some (File content) ->
  loads content = None ->
  KeyValueStore.__init__ name cwd w = Raise JSONDecodeError.
Proof.
  intros Hfile Hbad. rewrite init_path, Hfile. cbv zeta.
  unfold KeyValueStore._load, bind, lift, read_text, json_load. cbn.
  now rewrite Hfile, Hbad.
Qed.

Lemma save_inv self w w' :
  KeyValueStore._save self w = Ok (tt, w') ->
  w' = with_file (KeyValueStore._path self)
         (dumps false (KeyValueStore._data self)) w.
Proof.
  unfold KeyValueStore._save, json_dump, write_text.
  destruct (fs w !! KeyValueStore._path self) as [[|]|];
    try discriminate;
    destruct (forallb is_scalar _); try discriminate; now intros [= <-].
Qed.

(** C3, amended. Once a store has saved data made of what [json.load]
    returns ([None], booleans, integers, strings, lists, dicts, and floats
    that the decoder reads back from their text; no tuple), a new store
    constructed with the same name and directory holds, after loading, the
    data that was saved. *)
Theorem reload_after_save name cwd self w w' :
  KeyValueStore._path self = KeyValueStore.path_of name cwd w ->
  round_trips false (KeyValueStore._data self) ->
  KeyValueStore._save self w = Ok (tt, w') ->
  KeyValueStore.__init__ name cwd w'
  = Ok ({| KeyValueStore._data := KeyValueStore._data self;
           KeyValueStore._name := KeyValueStore.store_name name;
           KeyValueStore._path := KeyValueStore._path self |}, w').
Proof.
  intros Hpath Hwf Hsave. apply save_inv in Hsave. subst w'.
  assert (Hp : KeyValueStore.path_of name cwd
                 (with_file (KeyValueStore._path self)
                    (dumps false (KeyValueStore._data self)) w)
               = KeyValueStore._path self).
  { rewrite Hpath. unfold KeyValueStore.path_of, KeyValueStore.store_dir, ret, os_getcwd.
    destruct cwd as [[|c r]|]; reflexivity. }
  rewrite init_path, Hp. cbn [fs with_file]. rewrite lookup_insert_eq. cbv zeta.
  unfold KeyValueStore._load, bind, lift, read_text, json_load, ret.
  cbn [KeyValueStore._path fs with_file]. rewrite lookup_insert_eq.
  now rewrite loads_dumps_round_trips.
Qed.

End StoreFile.

(** ** The private-key file *)

Section KeyFile.
Context `{PyFloat}.

Lemma load_all_keys_unfold w :
  load_all_keys w
  = match fs w !! private_keys_file w with
    | None => Ok (JObj [], w)
    | Some (File c) =>
        match loads c with
        | Some v => Ok (v, w)
        | None => Raise JSONDecodeError
        end
    | Some Dir => Raise IsADirectoryError
    end.
Proof.
  unfold load_all_keys, private_keys_path, private_keys_file, bind, ret, lift,
    os_getcwd, os_path_exists, read_text, json_load.
  cbn beta.
  destruct (fs w !! os_path_join (cwd w) (lit "private_keys.json"))
    as [[c|]|] eqn:Hf; rewrite ?Hf; try reflexivity.
  now destruct (loads c).
Qed.

(** [load_all_keys] reads the files and the working directory only. *)
Lemma load_all_keys_frame w w' v :
  fs w' = fs w -> cwd w' = cwd w ->
  load_all_keys w = Ok (v, w) -> load_all_keys w' = Ok (v, w').
Proof.
  intros Hfs Hcwd. rewrite !load_all_keys_unfold.
  unfold private_keys_file. rewrite Hfs, Hcwd.
  destruct (fs w !! _) as [[c|]|]; try discriminate.
  - destruct (loads c); [|discriminate]. now intros [= ->].
  - now intros [= <-].
Qed.

Lemma load_all_keys_not_dir w v :
  load_all_keys w = Ok (v, w) -> fs w !! private_keys_file w <> Some Dir.
Proof. rewrite load_all_keys_unfold. now intros Hl Hd; rewrite Hd in Hl. Qed.

Lemma save_private_keys_spec name identity_key wallet_key w d :
  load_all_keys w = Ok (JObj d, w) ->
  save_private_keys name identity_key wallet_key w
  = Ok (tt, with_file (private_keys_file w)
              (dumps true (JObj (dict_set name
                                   (key_record identity_key wallet_key) d))) w).
Proof.
  intros Hload. pose proof (load_all_keys_not_dir _ _ Hload) as Hnd.
  unfold save_private_keys, bind. rewrite Hload. cbn [lift py_setitem].
  unfold private_keys_path, bind, ret, os_getcwd, json_dump, write_text.
  fold (private_keys_file w). rewrite dumps_ascii_encodable.
  destruct (fs w !! private_keys_file w) as [[|]|]; [reflexivity|contradiction|reflexivity].
Qed.

Lemma dict_set_keys name (x : json) d k :
  k ∈ map fst (dict_set name x d) -> k = name \/ k ∈ map fst d.
Proof.
  induction d as [|[k' y] d IH]; cbn [dict_set map fst].
  - intros ->%list_elem_of_singleton. now left.
  - destruct (decide (name = k')) as [->|Hne]; cbn [map fst]; [now right|].
    intros [->|Hin]%elem_of_cons; [right; left|].
    destruct (IH Hin) as [->|Hd]; [now left | right; now right].
Qed.

Lemma dict_set_nodup name (x : json) d :
  NoDup (map fst d) -> NoDup (map fst (dict_set name x d)).
Proof.
  induction d as [|[k y] d IH]; cbn [dict_set map fst]; intros Hnd.
  - apply NoDup_singleton.
  - apply NoDup_cons in Hnd as [Hk Hnd].
    destruct (decide (name = k)) as [->|Hne]; cbn [map fst].
    + now apply NoDup_cons.
    + apply NoDup_cons. split; [|now apply IH].
      intros [->|Hin]%dict_set_keys; [now apply Hne | now apply Hk].
Qed.

Lemma well_formed_dict_set str_ok name x d :
  str_ok name = true -> well_formed str_ok x = true ->
  well_formed str_ok (JObj d) = true ->
  well_formed str_ok (JObj (dict_set name x d)) = true.
Proof.
  intros Hn Hx. cbn [well_formed]. intros [Hnd Hall]%andb_prop.
  apply bool_decide_eq_true in Hnd. apply andb_true_intro. split.
  - apply bool_decide_eq_true. now apply dict_set_nodup.
  - clear Hnd. induction d as [|[k y] d IH]; cbn [dict_set forallb] in *.
    + now rewrite Hn, Hx.
    + apply andb_prop in Hall as [Hky Hall].
      destruct (decide (name = k)) as [->|Hne]; cbn [forallb].
      * now rewrite Hn, Hx, Hall.
      * now rewrite Hky, IH.
Qed.

(** C7, amended. When the file is absent or holds a JSON object,
    [save_private_keys(name, identity_key, wallet_key)] rewrites the file
    with the dump of the mapping it held before in which [name] is now bound
    to the two keys: every other name keeps its record, and the mapping is
    what a later [load_all_keys] reads. *)
Theorem save_private_keys_updates name identity_key wallet_key w d :
  load_all_keys w = Ok (JObj d, w) ->
  let d' := dict_set name (key_record identity_key wallet_key) d in
  let w' := with_file (private_keys_file w) (dumps true (JObj d')) w in
  save_private_keys name identity_key wallet_key w = Ok (tt, w')
  /\ dict_get name d' = Some (key_record identity_key wallet_key)
  /\ (forall other, other <> name -> dict_get other d' = dict_get other d)
  /\ (well_formed (str_ok_for true) (JObj d) = true ->
      forallb is_scalar name = true ->
      forallb is_scalar identity_key = true ->
      forallb is_scalar wallet_key = true ->
      load_all_keys w' = Ok (JObj d', w')).
Proof.
  intros Hload d' w'. repeat split.
  - now apply save_private_keys_spec.
  - apply dict_get_set_eq.
  - intros other Hne. now apply dict_get_set_ne.
  - intros Hwf Hname Hik Hwk. rewrite load_all_keys_unfold.
    subst w'. unfold private_keys_file. cbn [fs cwd with_file].
    rewrite lookup_insert_eq, loads_dumps; [reflexivity|].
    apply well_formed_dict_set; [exact Hname| |exact Hwf].
    cbn. unfold str_ok_for. now rewrite Hik, Hwk.
Qed.

Lemma stored_keys_found d name record identity_key wallet_key :
  dict_get name d = Some record ->
  py_truth record = true ->
  py_getitem record (lit "identity_key") = Ok identity_key ->
  py_getitem record (lit "wallet_key") = Ok wallet_key ->
  stored_keys (JObj d) name = Ok (Some (identity_key, wallet_key)).
Proof.
  intros Hget Htrue Hik Hwk. unfold stored_keys. cbn [py_contains py_get].
  unfold dict_has. now rewrite Hget, Htrue, Hik, Hwk.
Qed.

Lemma stored_keys_truthy d name record :
  dict_get name d = Some record ->
  py_truth record = true ->
  stored_keys (JObj d) name <> Ok None.
Proof.
  intros Hget Htrue. unfold stored_keys. cbn [py_contains py_get].
  unfold dict_has. rewrite Hget, Htrue.
  destruct (py_getitem record (lit "identity_key")); [|discriminate].
  destruct (py_getitem record (lit "wallet_key")); discriminate.
Qed.

(** C5, amended. When the file binds [name] to a record that is not empty
    and that holds an identity key and a wallet key, the call returns these
    two keys; and whenever the call returns over a record that is not empty,
    it has generated no key and written no file: the process is left as it
    was. *)
Theorem get_or_create_returns_stored name w d record :
  load_all_keys w = Ok (JObj d, w) ->
  dict_get name d = Some record ->
  py_truth record = true ->
  (forall identity_key wallet_key,
     py_getitem record (lit "identity_key") = Ok identity_key ->
     py_getitem record (lit "wallet_key") = Ok wallet_key ->
     get_or_create_private_keys name w = Ok ((identity_key, wallet_key), w))
  /\ (forall keys w',
        get_or_create_private_keys name w = Ok (keys, w') -> w' = w).
Proof.
  intros Hload Hget Htrue. split.
  - intros identity_key wallet_key Hik Hwk.
    unfold get_or_create_private_keys, bind. rewrite Hload.
    now rewrite (stored_keys_found _ _ _ _ _ Hget Htrue Hik Hwk).
  - intros keys w'. unfold get_or_create_private_keys, bind. rewrite Hload.
    pose proof (stored_keys_truthy d name record Hget Htrue) as Hsome.
    destruct (stored_keys (JObj d) name) as [[stored|]|e]; cbn [lift];
      [|contradiction|discriminate].
    unfold ret. now intros [= _ <-].
Qed.

Lemma creation_path name w d :
  load_all_keys w = Ok (JObj d, w) ->
  stored_keys (JObj d) name = Ok None ->
  get_or_create_private_keys name w
  = Ok ((JStr (identity_source w (identity_calls w)),
         JStr (wallet_source w (wallet_calls w))),
        after_creation name d w).
Proof.
  intros Hload Hnone.
  unfold get_or_create_private_keys, bind at 1. rewrite Hload.
  unfold bind at 1. rewrite Hnone. cbn [lift].
  unfold bind, Identity_generate, PrivateKey_new. cbn.
  erewrite save_private_keys_spec.
  - reflexivity.
  - now apply (load_all_keys_frame w).
Qed.

Lemma stored_keys_absent d name :
  dict_get name d = None -> stored_keys (JObj d) name = Ok None.
Proof.
  intros Hget. unfold stored_keys. cbn [py_contains]. unfold dict_has.
  now rewrite Hget.
Qed.

Lemma stored_keys_falsy d name record :
  dict_get name d = Some record -> py_truth record = false ->
  stored_keys (JObj d) name = Ok None.
Proof.
  intros Hget Hfalse. unfold stored_keys. cbn [py_contains py_get].
  unfold dict_has. now rewrite Hget, Hfalse.
Qed.

(** C8, amended. When the file binds [name] to a record that is falsy as a
    whole (an empty dict, [None], an empty string, ...), the call takes the
    creation path: it generates keys, binds [name] to them in the file and
    returns generated keys. *)
Theorem falsy_record_is_replaced name w d record :
  load_all_keys w = Ok (JObj d, w) ->
  dict_get name d = Some record ->
  py_truth record = false ->
  get_or_create_private_keys name w
  = Ok ((JStr (identity_source w (identity_calls w)),
         JStr (wallet_source w (wallet_calls w))),
        after_creation name d w).
Proof.
  intros Hload Hget Hfalse. apply creation_path; [exact Hload|].
  now apply (stored_keys_falsy d name record).
Qed.

(** C9. On the creation path the wallet-key generator is called twice: the
    call returns the key of the first call and the file receives the key of
    the second, so the two differ whenever the generator gives two distinct
    keys. *)
Theorem creation_returns_other_wallet_key name w d :
  load_all_keys w = Ok (JObj d, w) ->
  dict_get name d = None
  \/ (exists record, dict_get name d = Some record /\ py_truth record = false) ->
  let returned := wallet_source w (wallet_calls w) in
  let persisted := wallet_source w (S (wallet_calls w)) in
  exists identity_key w',
    get_or_create_private_keys name w
    = Ok ((JStr identity_key, JStr returned), w')
    /\ wallet_calls w' = S (S (wallet_calls w))
    /\ fs w' !! private_keys_file w'
       = Some (File (dumps true
                       (JObj (dict_set name (key_record identity_key persisted) d))))
    /\ py_getitem (key_record identity_key persisted) (lit "wallet_key")
       = Ok (JStr persisted)
    /\ (returned <> persisted -> JStr returned <> JStr persisted).
Proof.
  intros Hload Hcase returned persisted.
  exists (identity_source w (identity_calls w)), (after_creation name d w).
  repeat split.
  - apply creation_path; [exact Hload|].
    destruct Hcase as [Hnone|(record & Hget & Hfalse)];
      [now apply stored_keys_absent | now apply (stored_keys_falsy d name record)].
  - unfold private_keys_file, after_creation. cbn [fs cwd].
    now rewrite lookup_insert_eq.
  - intros Hne [= Heq]. now apply Hne.
Qed.


End KeyFile.

(** ** Further properties of dicts *)

Section DictMore.
Context `{PyFloat}.

Lemma dict_get_del_eq k (d : list (text * json)) : dict_get k (dict_del k d) = None.
Proof.
  induction d as [|[k' v'] d IH]; [reflexivity|]. cbn [dict_del].
  destruct (decide (k = k')) as [->|Hne]; [exact IH|].
  cbn [dict_get]. now rewrite decide_False.
Qed.

Lemma dict_get_del_ne k k' (d : list (text * json)) :
  k' <> k -> dict_get k' (dict_del k d) = dict_get k' d.
Proof.
  intros Hne. induction d as [|[k0 v0] d IH]; [reflexivity|]. cbn [dict_del].
  destruct (decide (k = k0)) as [->|Hk]; cbn [dict_get].
  - now rewrite decide_False.
  - now rewrite IH.
Qed.

Lemma dict_del_absent k (d : list (text * json)) :
  dict_get k d = None -> dict_del k d = d.
Proof.
  induction d as [|[k' v'] d IH]; [reflexivity|]. cbn [dict_get dict_del].
  destruct (decide (k = k')); [discriminate|]. intros Hd. now rewrite IH.
Qed.

Lemma dict_del_set_fresh k v (d : list (text * json)) :
  dict_get k d = None -> dict_del k (dict_set k v d) = d.
Proof.
  induction d as [|[k' v'] d IH]; cbn [dict_get dict_set dict_del].
  - now rewrite decide_True.
  - destruct (decide (k = k')) as [->|Hne]; [discriminate|].
    intros Hd. cbn [dict_del]. rewrite decide_False by assumption. now rewrite IH.
Qed.

Lemma dict_set_set k v1 v2 (d : list (text * json)) :
  dict_set k v2 (dict_set k v1 d) = dict_set k v2 d.
Proof.
  induction d as [|[k' v'] d IH]; cbn [dict_set].
  - now rewrite decide_True.
  - destruct (decide (k = k')) as [->|Hne]; cbn [dict_set].
    + now rewrite decide_True.
    + rewrite decide_False by assumption. now rewrite IH.
Qed.

End DictMore.

(** ** Further properties of the key-value store *)

Lemma with_file_twice p c1 c2 w :
  with_file p c2 (with_file p c1 w) = with_file p c2 w.
Proof. unfold with_file. cbn. now rewrite insert_insert_eq. Qed.

Lemma os_path_join_relative d b :
  head b <> Some 47 -> os_path_join d b = join_prefix d ++ b.
Proof.
  intros Hb. unfold os_path_join, join_prefix.
  destruct b as [|c b'].
  - destruct (last d) as [c|]; [|reflexivity].
    destruct (c =? 47); [reflexivity|]. now rewrite <- app_assoc.
  - destruct (N.eqb_spec c 47) as [->|_]; [now contradiction Hb|].
    destruct (last d) as [c0|]; [|reflexivity].
    destruct (c0 =? 47); [reflexivity|]. now rewrite <- app_assoc.
Qed.

Section StoreMore.
Context `{PyFloat}.

(** X1. Constructing a store when no file is at its path gives an empty
    store and leaves the process as it was: no file is created, and every
    [get] returns [None], every [has] is false. *)
Theorem init_without_file name cwd w :
  (forall c, fs w !! KeyValueStore.path_of name cwd w <> Some (File c)) ->
  let self := {| KeyValueStore._data := JObj [];
                 KeyValueStore._name := KeyValueStore.store_name name;
                 KeyValueStore._path := KeyValueStore.path_of name cwd w |} in
  KeyValueStore.__init__ name cwd w = Ok (self, w)
  /\ forall key, KeyValueStore.get self key = Ok JNull
                 /\ KeyValueStore.has self key = Ok false.
Proof.
  intros Hnone self. split; [|intros key; split; reflexivity].
  rewrite init_path. cbv zeta.
  destruct (fs w !! KeyValueStore.path_of name cwd w) as [[c|]|] eqn:Hf;
    try reflexivity.
  now contradiction (Hnone c).
Qed.

(** X2. The constructor only reads: when it returns, the process is as it
    was, the store has the name and the path computed from the arguments,
    and when a file is at that path the store holds what the file decodes
    to. *)
Theorem init_reads_only name cwd w self w' :
  KeyValueStore.__init__ name cwd w = Ok (self, w') ->
  w' = w
  /\ KeyValueStore._name self = KeyValueStore.store_name name
  /\ KeyValueStore._path self = KeyValueStore.path_of name cwd w
  /\ forall c, fs w !! KeyValueStore.path_of name cwd w = Some (File c) ->
               loads c = Some (KeyValueStore._data self).
Proof.
  rewrite init_path. cbv zeta.
  destruct (fs w !! KeyValueStore.path_of name cwd w) as [[c|]|] eqn:Hf;
    try (intros [= <- <-]; repeat split; intros c'; discriminate).
  unfold KeyValueStore._load, bind, lift, read_text, json_load, ret.
  cbn [KeyValueStore._path]. rewrite Hf.
  destruct (loads c) as [v|] eqn:Hv; [|discriminate].
  intros [= <- <-]. repeat split. now intros c' [= <-].
Qed.

(** X3. The constructor does not check that the file holds an object: over
    a file that holds a JSON array it returns a store, on which every [get]
    raises [AttributeError] and every [set] raises [TypeError]. *)
Theorem init_over_array name cwd w c items :
  fs w !! KeyValueStore.path_of name cwd w = Some (File c) ->
  loads c = Some (JArr items) ->
  exists self,
    KeyValueStore.__init__ name cwd w = Ok (self, w)
    /\ KeyValueStore._data self = JArr items
    /\ (forall key, KeyValueStore.get self key = Raise AttributeError)
    /\ (forall key value w', KeyValueStore.set key value self w' = Raise TypeError).
Proof.
  intros Hf Hv. eexists. split; [|split; [|split]].
  - rewrite init_path, Hf. cbv zeta.
    unfold KeyValueStore._load, bind, lift, read_text, json_load, ret.
    cbn [KeyValueStore._path]. now rewrite Hf, Hv.
  - reflexivity.
  - reflexivity.
  - reflexivity.
Qed.

(** X4. An empty name stands for [my] and an empty or missing directory for
    the working directory of the process. *)
Theorem init_defaults name w :
  cwd w <> [] ->
  KeyValueStore.__init__ [] None w
    = KeyValueStore.__init__ (lit "my") (Some (cwd w)) w
  /\ KeyValueStore.__init__ name (Some []) w
     = KeyValueStore.__init__ name None w.
Proof.
  intros Hcwd. split; [|reflexivity].
  rewrite !init_path. unfold KeyValueStore.path_of, KeyValueStore.store_dir.
  destruct (cwd w) as [|c r] eqn:Hc; [contradiction|].
  unfold os_getcwd, ret. now rewrite Hc.
Qed.

(** X5. In one directory, two names that differ (the empty name counting as
    [my]) and do not start with a slash give two different files. *)
Theorem distinct_names_distinct_paths n1 n2 cwd w :
  head n1 <> Some 47 -> head n2 <> Some 47 ->
  KeyValueStore.store_name n1 <> KeyValueStore.store_name n2 ->
  KeyValueStore.path_of n1 cwd w <> KeyValueStore.path_of n2 cwd w.
Proof.
  intros H1 H2 Hne Heq. apply Hne.
  assert (Hrel : forall n, head n <> Some 47 ->
            head (KeyValueStore.store_name n ++ lit "_data.json") <> Some 47).
  { intros [|c r] Hn; [discriminate|exact Hn]. }
  unfold KeyValueStore.path_of in Heq.
  destruct (KeyValueStore.store_dir cwd w) as [[d w0]|e] eqn:Hd.
  - rewrite !os_path_join_relative in Heq by auto.
    now apply app_inv_head, app_inv_tail in Heq.
  - unfold KeyValueStore.store_dir, ret, os_getcwd in Hd.
    destruct cwd as [[|c r]|]; discriminate.
Qed.

Lemma save_spec self w :
  fs w !! KeyValueStore._path self <> Some Dir ->
  forallb is_scalar (dumps false (KeyValueStore._data self)) = true ->
  KeyValueStore._save self w
  = Ok (tt, with_file (KeyValueStore._path self)
              (dumps false (KeyValueStore._data self)) w).
Proof.
  intros Hnd Hsc. unfold KeyValueStore._save, json_dump, write_text.
  rewrite Hsc. destruct (fs w !! KeyValueStore._path self) as [[|]|];
    [reflexivity|contradiction|reflexivity].
Qed.

Lemma save_returns self w w' :
  KeyValueStore._save self w = Ok (tt, w') ->
  fs w !! KeyValueStore._path self <> Some Dir
  /\ forallb is_scalar (dumps false (KeyValueStore._data self)) = true
  /\ w' = with_file (KeyValueStore._path self)
            (dumps false (KeyValueStore._data self)) w.
Proof.
  unfold KeyValueStore._save, json_dump, write_text.
  destruct (fs w !! KeyValueStore._path self) as [[|]|];
    try discriminate;
    destruct (forallb is_scalar _); try discriminate;
    intros [= <-]; repeat split; discriminate.
Qed.

Lemma remove_inv key self w self' w' :
  KeyValueStore.remove key self w = Ok (self', w') ->
  (KeyValueStore.has self key = Ok false /\ self' = self /\ w' = w)
  \/ (exists d, KeyValueStore._data self = JObj d
                /\ dict_has key d = true
                /\ self' = KeyValueStore.with_data self (JObj (dict_del key d))
                /\ w' = with_file (KeyValueStore._path self)
                          (dumps false (JObj (dict_del key d))) w).
Proof.
  unfold KeyValueStore.remove, KeyValueStore.has, bind, lift, ret.
  destruct (py_contains key (KeyValueStore._data self)) as [[|]|e] eqn:Hc;
    [|intros [= <- <-]; now left|discriminate].
  destruct (KeyValueStore._data self) as [ | | | | | |d| ] eqn:Hd;
    cbn [py_delitem]; try discriminate.
  cbn [py_contains] in Hc. injection Hc as Hc. rewrite Hc.
  destruct (KeyValueStore._save _ w) as [[[] w1]|e] eqn:Hs; [|discriminate].
  intros [= <- <-]. right. exists d. repeat split; try assumption.
  now apply save_inv in Hs.
Qed.

Lemma clear_inv self w self' w' :
  KeyValueStore.clear self w = Ok (self', w') ->
  (KeyValueStore._data self' = JObj [] \/ KeyValueStore._data self' = JArr [])
  /\ KeyValueStore._name self' = KeyValueStore._name self
  /\ KeyValueStore._path self' = KeyValueStore._path self
  /\ w' = with_file (KeyValueStore._path self)
            (dumps false (KeyValueStore._data self')) w.
Proof.
  unfold KeyValueStore.clear, bind, lift, ret.
  destruct (py_clear (KeyValueStore._data self)) as [d|e] eqn:Hc; [|discriminate].
  destruct (KeyValueStore._save _ w) as [[[] w1]|e] eqn:Hs; [|discriminate].
  intros [= <- <-]. apply save_inv in Hs. repeat split; try assumption.
  cbn. destruct (KeyValueStore._data self); try discriminate;
    injection Hc as <-; auto.
Qed.

(** X6. A [set] that returns was made on a store that holds a dict: in
    memory the key is bound to the value (a key the dict had keeps its
    place, a new key goes last), and the file of the store holds the dump of
    the new data, which has no surrogate. *)
Theorem set_binds_and_writes key value self w self' w' :
  KeyValueStore.set key value self w = Ok (self', w') ->
  exists d,
    KeyValueStore._data self = JObj d
    /\ self' = KeyValueStore.with_data self (JObj (dict_set key value d))
    /\ fs w' !! KeyValueStore._path self
       = Some (File (dumps false (JObj (dict_set key value d))))
    /\ forallb is_scalar (dumps false (JObj (dict_set key value d))) = true.
Proof.
  intros (d & Hd & -> & (_ & Hsc & ->)%save_returns)%set_inv.
  exists d. cbn [KeyValueStore._path KeyValueStore._data KeyValueStore.with_data] in *.
  repeat split; try assumption.
  cbn [fs with_file]. now rewrite lookup_insert_eq.
Qed.

(** X7. A [set] that returns leaves every other key as it was: [get] and
    [has] answer for it as before. *)
Theorem set_keeps_other_keys key value self w self' w' other :
  KeyValueStore.set key value self w = Ok (self', w') ->
  other <> key ->
  KeyValueStore.get self' other = KeyValueStore.get self other
  /\ KeyValueStore.has self' other = KeyValueStore.has self other.
Proof.
  intros (d & Hd & -> & _)%set_inv Hne.
  unfold KeyValueStore.get, KeyValueStore.has. rewrite Hd. cbn.
  unfold dict_has. now rewrite dict_get_set_ne.
Qed.

(** X8. Two [set]s of one key in a row leave the store and the process as
    the second alone would. *)
Theorem set_twice_last_wins key v1 v2 self w s1 w1 s2 w2 :
  KeyValueStore.set key v1 self w = Ok (s1, w1) ->
  KeyValueStore.set key v2 s1 w1 = Ok (s2, w2) ->
  KeyValueStore.set key v2 self w = Ok (s2, w2).
Proof.
  intros (d & Hd & -> & Hs1)%set_inv (d1 & Hd1 & -> & Hs2)%set_inv.
  cbn in Hd1. injection Hd1 as <-.
  apply save_returns in Hs1 as (Hnd & _ & ->).
  apply save_returns in Hs2 as (_ & Hsc & ->).
  cbn [KeyValueStore._path KeyValueStore._data KeyValueStore.with_data] in *.
  rewrite dict_set_set in *. rewrite with_file_twice.
  unfold KeyValueStore.set, bind, lift, ret. rewrite Hd. cbn [py_setitem].
  now rewrite save_spec.
Qed.

(** X9. A [remove] of a key that is in the store, when it returns, has
    unbound the key, left every other key as it was, and rewritten the file
    of the store with the dump of the data that is left. *)
Theorem remove_present key self w self' w' :
  KeyValueStore.has self key = Ok true ->
  KeyValueStore.remove key self w = Ok (self', w') ->
  KeyValueStore.has self' key = Ok false
  /\ KeyValueStore.get self' key = Ok JNull
  /\ (forall other, other <> key ->
        KeyValueStore.get self' other = KeyValueStore.get self other)
  /\ w' = with_file (KeyValueStore._path self)
            (dumps false (KeyValueStore._data self')) w.
Proof.
  intros Hhas [(Habs & _)|(d & Hd & _ & -> & ->)]%remove_inv; [congruence|].
  unfold KeyValueStore.has, KeyValueStore.get. rewrite Hd. cbn.
  unfold dict_has. rewrite dict_get_del_eq. repeat split.
  intros other Hne. now rewrite dict_get_del_ne.
Qed.

(** X10. [remove] is idempotent: after a [remove] that returns, a second
    [remove] of the same key changes nothing. *)
Theorem remove_twice key self w s1 w1 :
  KeyValueStore.remove key self w = Ok (s1, w1) ->
  KeyValueStore.remove key s1 w1 = Ok (s1, w1).
Proof.
  intros [(Habs & -> & ->)|(d & Hd & _ & -> & ->)]%remove_inv;
    unfold KeyValueStore.remove, bind, lift, ret.
  - unfold KeyValueStore.has in Habs. now rewrite Habs.
  - cbn. unfold dict_has. now rewrite dict_get_del_eq.
Qed.

(** X11. Binding a key that was not in the store and removing it again
    gives back the data the store held. *)
Theorem set_then_remove_restores key value self w s1 w1 s2 w2 :
  KeyValueStore.has self key = Ok false ->
  KeyValueStore.set key value self w = Ok (s1, w1) ->
  KeyValueStore.remove key s1 w1 = Ok (s2, w2) ->
  KeyValueStore._data s2 = KeyValueStore._data self
  /\ w2 = with_file (KeyValueStore._path self)
            (dumps false (KeyValueStore._data self)) w.
Proof.
  intros Habs (d & Hd & -> & Hs1)%set_inv Hrem.
  unfold KeyValueStore.has in Habs. rewrite Hd in Habs. cbn in Habs.
  injection Habs as Habs. unfold dict_has in Habs.
  destruct (dict_get key d) eqn:Hget; [discriminate|].
  apply save_returns in Hs1 as (_ & _ & ->).
  apply remove_inv in Hrem as [(Hhas & _)|(d1 & Hd1 & _ & -> & ->)].
  - unfold KeyValueStore.has in Hhas. cbn in Hhas.
    now rewrite dict_has_set in Hhas.
  - cbn in Hd1. injection Hd1 as <-. cbn.
    rewrite dict_del_set_fresh by assumption. rewrite Hd.
    now rewrite with_file_twice.
Qed.

(** X12. A [clear] that returns on a store that holds a dict, empty or not,
    leaves the store empty, every [get] returning [None] and every [has]
    false, and the file of the store holding an empty object. *)
Theorem clear_empties_and_writes self w self' w' d :
  KeyValueStore._data self = JObj d ->
  KeyValueStore.clear self w = Ok (self', w') ->
  self' = KeyValueStore.with_data self (JObj [])
  /\ fs w' !! KeyValueStore._path self = Some (File (lit "{}"))
  /\ forall key, KeyValueStore.get self' key = Ok JNull
                 /\ KeyValueStore.has self' key = Ok false.
Proof.
  intros Hd. unfold KeyValueStore.clear, bind, lift, ret. rewrite Hd. cbn [py_clear].
  destruct (KeyValueStore._save _ w) as [[[] w1]|e] eqn:Hs; [|discriminate].
  intros [= <- <-]. apply save_inv in Hs as ->.
  split; [reflexivity|]. split; [|intros key; split; reflexivity].
  cbn [fs with_file KeyValueStore._path KeyValueStore.with_data].
  now rewrite lookup_insert_eq.
Qed.

(** X13. After a [clear] that returns, a new store constructed with the same
    name and directory is empty as well: it holds the data the cleared store
    holds. *)
Theorem clear_then_reload name cwd self w self' w' :
  KeyValueStore._path self = KeyValueStore.path_of name cwd w ->
  KeyValueStore.clear self w = Ok (self', w') ->
  KeyValueStore.__init__ name cwd w'
  = Ok ({| KeyValueStore._data := KeyValueStore._data self';
           KeyValueStore._name := KeyValueStore.store_name name;
           KeyValueStore._path := KeyValueStore._path self |}, w').
Proof.
  intros Hpath (Hdata & _ & _ & ->)%clear_inv.
  assert (Hp : forall c, KeyValueStore.path_of name cwd
                           (with_file (KeyValueStore._path self) c w)
                         = KeyValueStore._path self).
  { intros c. rewrite Hpath.
    unfold KeyValueStore.path_of, KeyValueStore.store_dir, ret, os_getcwd.
    destruct cwd as [[|c0 r]|]; reflexivity. }
  rewrite init_path, Hp. cbn [fs with_file]. rewrite lookup_insert_eq. cbv zeta.
  unfold KeyValueStore._load, bind, lift, read_text, json_load, ret.
  cbn [KeyValueStore._path fs with_file]. rewrite lookup_insert_eq.
  destruct Hdata as [-> | ->]; reflexivity.
Qed.

End StoreMore.

Section StoreFrame.
Context `{PyFloat}.

(** X14. A [set], [remove] or [clear] that returns keeps the name and the
    path of the store, and leaves the working directory of the process and
    its key generators as they were. *)
Theorem mutation_keeps_name_and_path key value self w self' w' :
  KeyValueStore.set key value self w = Ok (self', w')
  \/ KeyValueStore.remove key self w = Ok (self', w')
  \/ KeyValueStore.clear self w = Ok (self', w') ->
  KeyValueStore._name self' = KeyValueStore._name self
  /\ KeyValueStore._path self' = KeyValueStore._path self
  /\ cwd w' = cwd w
  /\ identity_calls w' = identity_calls w
  /\ wallet_calls w' = wallet_calls w.
Proof.
  intros [Hset|[Hrem|Hclr]].
  - apply set_inv in Hset as (d & _ & -> & (_ & _ & ->)%save_returns).
    repeat split.
  - apply remove_inv in Hrem as [(_ & -> & ->)|(d & _ & _ & -> & ->)];
      repeat split.
  - apply clear_inv in Hclr as (_ & Hn & Hp & ->).
    split; [exact Hn|]. split; [exact Hp|]. repeat split.
Qed.

End StoreFrame.

(** ** Text that cannot be written *)

Lemma in_join sep chunk chunks (c : N) :
  chunk ∈ chunks -> c ∈ chunk -> c ∈ join sep chunks.
Proof.
  intros Hin Hc. induction chunks as [|x xs IH]; [now apply elem_of_nil in Hin|].
  destruct xs as [|y ys].
  - apply list_elem_of_singleton in Hin as ->. exact Hc.
  - change (join sep (x :: y :: ys)) with (x ++ sep ++ join sep (y :: ys)).
    apply elem_of_cons in Hin as [->|Hin].
    + apply elem_of_app. now left.
    + apply elem_of_app. right. apply elem_of_app. right. now apply IH.
Qed.

Lemma in_encode_string c s :
  c ∈ s -> is_scalar c = false -> c ∈ encode_string false s.
Proof.
  intros Hin Hc. unfold encode_string. right. apply elem_of_app. left.
  assert (He : escape_char false c = [c]).
  { unfold escape_char, escape_short, is_scalar in *. revert Hc.
    bools; intros; (reflexivity || discriminate). }
  induction s as [|x s IH]; [now apply elem_of_nil in Hin|].
  cbn [map concat]. apply elem_of_app.
  apply elem_of_cons in Hin as [<-|Hin]; [left; rewrite He; left | right; now apply IH].
Qed.

Section Unwritable.
Context `{PyFloat}.

Lemma dict_get_elem k x (d : list (text * json)) :
  dict_get k d = Some x -> (k, x) ∈ d.
Proof.
  induction d as [|[k' v'] d IH]; [discriminate|]. cbn [dict_get].
  destruct (decide (k = k')) as [->|Hne].
  - intros [= ->]. left.
  - intros Hd. right. now apply IH.
Qed.

(** X16. A [set] with a key that holds a surrogate never returns: the text
    of the new data cannot be written. *)
Theorem set_surrogate_key_never_returns key value self w c :
  c ∈ key -> is_scalar c = false ->
  ~ exists res, KeyValueStore.set key value self w = Ok res.
Proof.
  intros Hin Hc [[self' w'] Hset].
  apply set_inv in Hset as (d & Hd & -> & (_ & Hsc & _)%save_returns).
  cbn [KeyValueStore._data KeyValueStore.with_data] in Hsc.
  assert (Htext : c ∈ dumps false (JObj (dict_set key value d))).
  { pose proof (dict_get_elem _ _ _ (dict_get_set_eq key value d)) as Hmem.
    unfold dumps. destruct (dict_set key value d) as [|m ms] eqn:Hds;
      [now apply elem_of_nil in Hmem|].
    cbn [encode]. right. apply elem_of_app. right. apply elem_of_app. left.
    eapply in_join; [apply list_elem_of_fmap; exists (key, value); split;
                       [reflexivity|exact Hmem]|].
    cbv beta iota. apply elem_of_app. left. now apply in_encode_string. }
  rewrite forallb_forall in Hsc. apply list_elem_of_In, Hsc in Htext. congruence.
Qed.

End Unwritable.

(** ** Further properties of the private-key file *)

Section KeyFileMore.
Context `{PyFloat}.

(** X17. [load_all_keys] only reads: when it returns, the process is as it
    was, and the value is the empty dict when there is no file and what the
    file decodes to otherwise. *)
Theorem load_all_keys_reads_only w v w' :
  load_all_keys w = Ok (v, w') ->
  w' = w
  /\ ((fs w !! private_keys_file w = None /\ v = JObj [])
      \/ exists c, fs w !! private_keys_file w = Some (File c)
                   /\ loads c = Some v).
Proof.
  rewrite load_all_keys_unfold.
  destruct (fs w !! private_keys_file w) as [[c|]|]; try discriminate.
  - destruct (loads c) as [v0|] eqn:Hv; [|discriminate].
    intros [= <- <-]. split; [reflexivity|]. right. eauto.
  - intros [= <- <-]. split; [reflexivity|]. now left.
Qed.

(** X18. When the key file does not decode, the three functions raise
    [JSONDecodeError]: nothing is returned, whatever the arguments. *)
Theorem malformed_key_file_raises w c :
  fs w !! private_keys_file w = Some (File c) ->
  loads c = None ->
  load_all_keys w = Raise JSONDecodeError
  /\ (forall name identity_key wallet_key,
        save_private_keys name identity_key wallet_key w = Raise JSONDecodeError)
  /\ (forall name, get_or_create_private_keys name w = Raise JSONDecodeError).
Proof.
  intros Hf Hbad.
  assert (Hload : load_all_keys w = Raise JSONDecodeError)
    by now rewrite load_all_keys_unfold, Hf, Hbad.
  split; [exact Hload|]. split.
  - intros name identity_key wallet_key. unfold save_private_keys, bind.
    now rewrite Hload.
  - intros name. unfold get_or_create_private_keys, bind. now rewrite Hload.
Qed.

Lemma load_after_save name identity_key wallet_key w d :
  load_all_keys w = Ok (JObj d, w) ->
  well_formed (str_ok_for true) (JObj d) = true ->
  forallb is_scalar name = true ->
  forallb is_scalar identity_key = true ->
  forallb is_scalar wallet_key = true ->
  let d' := dict_set name (key_record identity_key wallet_key) d in
  let w' := with_file (private_keys_file w) (dumps true (JObj d')) w in
  save_private_keys name identity_key wallet_key w = Ok (tt, w')
  /\ load_all_keys w' = Ok (JObj d', w')
  /\ well_formed (str_ok_for true) (JObj d') = true.
Proof.
  intros Hload Hwf Hname Hik Hwk d' w'.
  assert (Hwf' : well_formed (str_ok_for true) (JObj d') = true).
  { apply well_formed_dict_set; [exact Hname| |exact Hwf].
    cbn. unfold str_ok_for. now rewrite Hik, Hwk. }
  split; [now apply save_private_keys_spec|]. split; [|exact Hwf'].
  rewrite load_all_keys_unfold. subst w'. unfold private_keys_file.
  cbn [fs cwd with_file]. now rewrite lookup_insert_eq, loads_dumps.
Qed.

(** X19. A pair saved for a name is the pair a later call for that name
    returns, without generating or writing anything. *)
Theorem save_then_get_or_create name identity_key wallet_key w d :
  load_all_keys w = Ok (JObj d, w) ->
  well_formed (str_ok_for true) (JObj d) = true ->
  forallb is_scalar name = true ->
  forallb is_scalar identity_key = true ->
  forallb is_scalar wallet_key = true ->
  exists w',
    save_private_keys name identity_key wallet_key w = Ok (tt, w')
    /\ get_or_create_private_keys name w'
       = Ok ((JStr identity_key, JStr wallet_key), w').
Proof.
  intros Hload Hwf Hname Hik Hwk.
  destruct (load_after_save name identity_key wallet_key w d Hload Hwf Hname Hik Hwk)
    as (Hsave & Hreload & _).
  eexists. split; [exact Hsave|].
  unfold get_or_create_private_keys, bind. rewrite Hreload.
  erewrite stored_keys_found; [reflexivity|apply dict_get_set_eq|reflexivity..].
Qed.


(** X21. A record that is not empty but lacks one of the two keys makes the
    call raise [KeyError]. *)
Theorem record_without_key_raises name w d fields :
  load_all_keys w = Ok (JObj d, w) ->
  dict_get name d = Some (JObj fields) ->
  fields <> [] ->
  dict_get (lit "identity_key") fields = None
  \/ dict_get (lit "wallet_key") fields = None ->
  get_or_create_private_keys name w = Raise KeyError.
Proof.
  intros Hload Hget Hne Hmiss.
  unfold get_or_create_private_keys, bind. rewrite Hload.
  unfold stored_keys. cbn [py_contains py_get]. unfold dict_has. rewrite Hget.
  destruct fields as [|f fs0]; [contradiction|]. cbn [py_truth py_getitem].
  destruct Hmiss as [Hi|Hw].
  - now rewrite Hi.
  - rewrite Hw. now destruct (dict_get (lit "identity_key") (f :: fs0)).
Qed.



End KeyFileMore.

(** * The properties on examples *)

Section Examples.
#[local] Existing Instance literal_float.

Lemma set_then_get_has_witness :
  let s := store_of [(lit "x", JInt 1)] in
  let w := with_file store_file (dumps false (JObj [(lit "x", JInt 1)])) fresh_world in
  KeyValueStore.set (lit "x") (JInt 1) empty_store fresh_world = Ok (s, w)
  /\ KeyValueStore.get s (lit "x") = Ok (JInt 1)
  /\ KeyValueStore.has s (lit "x") = Ok true.
Proof.
  intros s w.
  assert (Hset : KeyValueStore.set (lit "x") (JInt 1) empty_store fresh_world
                 = Ok (s, w)) by reflexivity.
  split; [exact Hset|].
  exact (set_then_get_has (lit "x") (JInt 1) empty_store fresh_world s w Hset).
Defined.

Lemma set_none_looks_absent_witness :
  let s := store_of [(lit "x", JNull)] in
  let w := with_file store_file (dumps false (JObj [(lit "x", JNull)])) fresh_world in
  KeyValueStore.set (lit "x") JNull empty_store fresh_world = Ok (s, w)
  /\ KeyValueStore.has s (lit "x") = Ok true
  /\ KeyValueStore.get s (lit "x") = Ok JNull
  /\ KeyValueStore.get empty_store (lit "x") = KeyValueStore.get s (lit "x").
Proof.
  intros s w.
  assert (Hset : KeyValueStore.set (lit "x") JNull empty_store fresh_world
                 = Ok (s, w)) by reflexivity.
  destruct (set_none_looks_absent (lit "x") empty_store fresh_world s w Hset)
    as (Hhas & Hget & Hsame).
  split; [exact Hset|]. split; [exact Hhas|]. split; [exact Hget|].
  apply (Hsame empty_store []); reflexivity.
Defined.

Lemma remove_absent_noop_witness :
  KeyValueStore.has empty_store (lit "x") = Ok false
  /\ KeyValueStore.remove (lit "x") empty_store fresh_world
     = Ok (empty_store, fresh_world).
Proof.
  split; [reflexivity|].
  apply (remove_absent_noop (lit "x") empty_store fresh_world). reflexivity.
Defined.

Lemma init_malformed_raises_witness :
  let w := world_with store_file (lit "{") in
  fs w !! KeyValueStore.path_of [] None w = Some (File (lit "{"))
  /\ loads (lit "{") = None
  /\ KeyValueStore.__init__ [] None w = Raise JSONDecodeError.
Proof.
  intros w.
  assert (Hfile : fs w !! KeyValueStore.path_of [] None w = Some (File (lit "{")))
    by reflexivity.
  assert (Hbad : loads (lit "{") = None) by reflexivity.
  split; [exact Hfile|]. split; [exact Hbad|].
  exact (init_malformed_raises [] None w (lit "{") Hfile Hbad).
Defined.

Lemma reload_after_save_witness :
  let self := store_of measured_data in
  let w' := with_file store_file (dumps false (JObj measured_data)) fresh_world in
  KeyValueStore._path self = KeyValueStore.path_of (lit "my") None fresh_world
  /\ round_trips false (KeyValueStore._data self)
  /\ KeyValueStore._save self fresh_world = Ok (tt, w')
  /\ KeyValueStore.__init__ (lit "my") None w' = Ok (self, w').
Proof.
  intros self w'.
  assert (Hpath : KeyValueStore._path self
                  = KeyValueStore.path_of (lit "my") None fresh_world)
    by reflexivity.
  assert (Hfloat : float_reads_back (lit "1.5" : text)).
  { intros n [|c r] Hr; [reflexivity|]. destruct Hr as [->| ->]; reflexivity. }
  assert (Hwf : round_trips false (KeyValueStore._data self)).
  { cbn. repeat split;
      first [exact Hfloat | apply (bool_decide_unpack _); reflexivity]. }
  assert (Hsave : KeyValueStore._save self fresh_world = Ok (tt, w'))
    by reflexivity.
  split; [exact Hpath|]. split; [exact Hwf|]. split; [exact Hsave|].
  exact (reload_after_save (lit "my") None self fresh_world w' Hpath Hwf Hsave).
Defined.

(** C3 as stated fails: a tuple is written as an array and an array is
    loaded as a list, so the new store does not hold the data that was
    saved. *)
Lemma tuple_is_reloaded_as_list :
  let self := store_of pair_data in
  let w' := with_file store_file (dumps false (JObj pair_data)) fresh_world in
  KeyValueStore.set (lit "t") (JTuple [JInt 1; JInt 2]) empty_store fresh_world
  = Ok (self, w')
  /\ KeyValueStore.__init__ (lit "my") None w' = Ok (store_of listed_data, w')
  /\ KeyValueStore._data (store_of listed_data) <> KeyValueStore._data self.
Proof.
  intros self w'. split; [reflexivity|]. split; [reflexivity|]. discriminate.
Qed.

Lemma get_or_create_returns_stored_witness :
  let w := keys_of alice_keys in
  load_all_keys w = Ok (JObj alice_keys, w)
  /\ dict_get (lit "alice") alice_keys = Some (key_record (lit "A") (lit "B"))
  /\ py_truth (key_record (lit "A") (lit "B")) = true
  /\ get_or_create_private_keys (lit "alice") w
     = Ok ((JStr (lit "A"), JStr (lit "B")), w).
Proof.
  intros w.
  assert (Hload : load_all_keys w = Ok (JObj alice_keys, w)) by reflexivity.
  assert (Hget : dict_get (lit "alice") alice_keys
                 = Some (key_record (lit "A") (lit "B"))) by reflexivity.
  assert (Htrue : py_truth (key_record (lit "A") (lit "B")) = true) by reflexivity.
  split; [exact Hload|]. split; [exact Hget|]. split; [exact Htrue|].
  apply (get_or_create_returns_stored (lit "alice") w alice_keys
           (key_record (lit "A") (lit "B")) Hload Hget Htrue); reflexivity.
Defined.

(** C5 as stated fails: over a record that is present and not empty but has
    no wallet key the call raises [KeyError]. *)
Lemma half_record_raises :
  let w := keys_of alice_half in
  let record := JObj [(lit "identity_key", JStr (lit "A"))] in
  load_all_keys w = Ok (JObj alice_half, w)
  /\ dict_get (lit "alice") alice_half = Some record
  /\ py_truth record = true
  /\ get_or_create_private_keys (lit "alice") w = Raise KeyError.
Proof. intros w record. repeat split. Qed.

Lemma save_private_keys_updates_witness :
  let w := keys_of bob_keys in
  let d' := bob_keys ++ alice_keys in
  let w' := with_file keys_file (dumps true (JObj d')) w in
  load_all_keys w = Ok (JObj bob_keys, w)
  /\ save_private_keys (lit "alice") (lit "A") (lit "B") w = Ok (tt, w')
  /\ dict_get (lit "bob") d' = dict_get (lit "bob") bob_keys
  /\ load_all_keys w' = Ok (JObj d', w').
Proof.
  intros w d' w'.
  assert (Hload : load_all_keys w = Ok (JObj bob_keys, w)) by reflexivity.
  destruct (save_private_keys_updates (lit "alice") (lit "A") (lit "B") w bob_keys Hload)
    as (Hsave & _ & Hother & Hreload).
  split; [exact Hload|]. split; [exact Hsave|].
  split; [apply Hother; discriminate|].
  apply Hreload; reflexivity.
Defined.

(** C7 as stated fails: on a file whose content does not parse the call
    raises the error of the decoder and produces no file. *)
Lemma save_private_keys_malformed :
  loads (lit "{") = None
  /\ save_private_keys (lit "alice") (lit "A") (lit "B")
       (world_with keys_file (lit "{"))
     = Raise JSONDecodeError.
Proof. split; reflexivity. Qed.

Lemma falsy_record_is_replaced_witness :
  let w := keys_of alice_empty in
  load_all_keys w = Ok (JObj alice_empty, w)
  /\ dict_get (lit "alice") alice_empty = Some (JObj [])
  /\ py_truth (JObj []) = false
  /\ get_or_create_private_keys (lit "alice") w
     = Ok ((JStr (lit "identity-0"), JStr (lit "wallet-0")),
           after_creation (lit "alice") alice_empty w).
Proof.
  intros w.
  assert (Hload : load_all_keys w = Ok (JObj alice_empty, w)) by reflexivity.
  split; [exact Hload|]. split; [reflexivity|]. split; [reflexivity|].
  exact (falsy_record_is_replaced (lit "alice") w alice_empty (JObj [])
           Hload eq_refl eq_refl).
Defined.

(** C8 as stated fails: a record whose key fields are empty strings is not
    empty, so it is returned as it is stored, and no key is generated or
    written. *)
Lemma blank_keys_are_returned :
  let w := keys_of alice_blank in
  load_all_keys w = Ok (JObj alice_blank, w)
  /\ py_getitem (key_record [] []) (lit "identity_key") = Ok (JStr [])
  /\ py_getitem (key_record [] []) (lit "wallet_key") = Ok (JStr [])
  /\ get_or_create_private_keys (lit "alice") w = Ok ((JStr [], JStr []), w)
  /\ get_or_create_private_keys (lit "alice") w
     <> Ok ((JStr (lit "identity-0"), JStr (lit "wallet-0")),
            after_creation (lit "alice") alice_blank w).
Proof.
  intros w.
  assert (Hcall : get_or_create_private_keys (lit "alice") w
                  = Ok ((JStr [], JStr []), w)) by reflexivity.
  repeat (split; [reflexivity|]). rewrite Hcall. discriminate.
Qed.

Lemma creation_returns_other_wallet_key_witness :
  load_all_keys fresh_world = Ok (JObj [], fresh_world)
  /\ dict_get (lit "alice") [] = None
  /\ exists identity_key w',
       get_or_create_private_keys (lit "alice") fresh_world
       = Ok ((JStr identity_key, JStr (lit "wallet-0")), w')
       /\ wallet_calls w' = 2%nat
       /\ fs w' !! private_keys_file w'
          = Some (File (dumps true
                          (JObj [(lit "alice",
                                  key_record identity_key (lit "wallet-1"))])))
       /\ JStr (lit "wallet-0") <> JStr (lit "wallet-1").
Proof.
  assert (Hload : load_all_keys fresh_world = Ok (JObj [], fresh_world))
    by reflexivity.
  split; [exact Hload|]. split; [reflexivity|].
  destruct (creation_returns_other_wallet_key (lit "alice") fresh_world [] Hload
              (or_introl eq_refl))
    as (identity_key & w' & Hcall & Hcalls & Hfile & _ & Hdiff).
  exists identity_key, w'.
  split; [exact Hcall|]. split; [exact Hcalls|]. split; [exact Hfile|].
  apply Hdiff. discriminate.
Defined.

(** C1 fails on the code: the first call for a new name returns the wallet
    key of the first call of the generator, the second call returns the one
    that was written, which comes from the second call of the generator. *)
Lemma get_or_create_twice_differs :
  let w1 := after_creation (lit "alice") [] fresh_world in
  get_or_create_private_keys (lit "alice") fresh_world
  = Ok ((JStr (lit "identity-0"), JStr (lit "wallet-0")), w1)
  /\ get_or_create_private_keys (lit "alice") w1
     = Ok ((JStr (lit "identity-0"), JStr (lit "wallet-1")), w1)
  /\ JStr (lit "wallet-0") <> JStr (lit "wallet-1").
Proof.
  intros w1. split; [reflexivity|]. split; [reflexivity|]. discriminate.
Qed.

End Examples.

(** * The further properties on examples *)

Section More_examples.
#[local] Existing Instance literal_float.

Lemma init_without_file_witness :
  (forall c, fs fresh_world !! KeyValueStore.path_of (lit "my") None fresh_world
             <> Some (File c))
  /\ KeyValueStore.__init__ (lit "my") None fresh_world = Ok (empty_store, fresh_world)
  /\ KeyValueStore.get empty_store (lit "x") = Ok JNull
  /\ KeyValueStore.has empty_store (lit "x") = Ok false.
Proof.
  assert (Hnone : forall c,
            fs fresh_world !! KeyValueStore.path_of (lit "my") None fresh_world
            <> Some (File c)) by (intros c; discriminate).
  destruct (init_without_file (lit "my") None fresh_world Hnone) as [Hinit Hkeys].
  split; [exact Hnone|]. split; [exact Hinit|]. exact (Hkeys (lit "x")).
Defined.

Lemma init_reads_only_witness :
  let w := with_file store_file (dumps false (JObj sample_data)) fresh_world in
  KeyValueStore.__init__ (lit "my") None w = Ok (store_of sample_data, w)
  /\ KeyValueStore._path (store_of sample_data)
     = KeyValueStore.path_of (lit "my") None w
  /\ loads (dumps false (JObj sample_data)) = Some (JObj sample_data).
Proof.
  intros w.
  assert (Hinit : KeyValueStore.__init__ (lit "my") None w
                  = Ok (store_of sample_data, w)) by reflexivity.
  destruct (init_reads_only (lit "my") None w (store_of sample_data) w Hinit)
    as (_ & _ & Hpath & Hdata).
  split; [exact Hinit|]. split; [exact Hpath|].
  apply (Hdata (dumps false (JObj sample_data))). reflexivity.
Defined.

Lemma init_over_array_witness :
  let w := world_with store_file (lit "[1, 2]") in
  fs w !! KeyValueStore.path_of (lit "my") None w = Some (File (lit "[1, 2]"))
  /\ loads (lit "[1, 2]") = Some (JArr [JInt 1; JInt 2])
  /\ exists self,
       KeyValueStore.__init__ (lit "my") None w = Ok (self, w)
       /\ KeyValueStore.get self (lit "x") = Raise AttributeError
       /\ KeyValueStore.set (lit "x") (JInt 1) self w = Raise TypeError.
Proof.
  intros w.
  assert (Hf : fs w !! KeyValueStore.path_of (lit "my") None w
               = Some (File (lit "[1, 2]"))) by reflexivity.
  assert (Hv : loads (lit "[1, 2]") = Some (JArr [JInt 1; JInt 2])) by reflexivity.
  split; [exact Hf|]. split; [exact Hv|].
  destruct (init_over_array (lit "my") None w _ _ Hf Hv)
    as (self & Hinit & _ & Hget & Hset).
  exists self. split; [exact Hinit|]. split; [apply Hget | apply Hset].
Defined.

Lemma init_defaults_witness :
  cwd fresh_world <> []
  /\ KeyValueStore.__init__ [] None fresh_world
     = KeyValueStore.__init__ (lit "my") (Some (lit "/home/agent")) fresh_world
  /\ KeyValueStore.__init__ (lit "agent") (Some []) fresh_world
     = KeyValueStore.__init__ (lit "agent") None fresh_world.
Proof.
  assert (Hcwd : cwd fresh_world <> []) by discriminate.
  split; [exact Hcwd|].
  exact (init_defaults (lit "agent") fresh_world Hcwd).
Defined.

Lemma distinct_names_distinct_paths_witness :
  head (lit "alice") <> Some 47 /\ head (lit "bob") <> Some 47
  /\ KeyValueStore.store_name (lit "alice") <> KeyValueStore.store_name (lit "bob")
  /\ KeyValueStore.path_of (lit "alice") None fresh_world
     <> KeyValueStore.path_of (lit "bob") None fresh_world.
Proof.
  assert (H1 : head (lit "alice") <> Some 47) by discriminate.
  assert (H2 : head (lit "bob") <> Some 47) by discriminate.
  assert (H3 : KeyValueStore.store_name (lit "alice")
               <> KeyValueStore.store_name (lit "bob")) by discriminate.
  split; [exact H1|]. split; [exact H2|]. split; [exact H3|].
  exact (distinct_names_distinct_paths (lit "alice") (lit "bob") None fresh_world
           H1 H2 H3).
Defined.

Lemma set_binds_and_writes_witness :
  let s' := store_of (sample_data ++ [(lit "z", JStr [233])]) in
  let w' := with_file store_file (dumps false (KeyValueStore._data s')) fresh_world in
  KeyValueStore.set (lit "z") (JStr [233]) (store_of sample_data) fresh_world
  = Ok (s', w')
  /\ exists d,
       KeyValueStore._data (store_of sample_data) = JObj d
       /\ fs w' !! store_file
          = Some (File (dumps false (JObj (dict_set (lit "z") (JStr [233]) d)))).
Proof.
  intros s' w'.
  assert (Hset : KeyValueStore.set (lit "z") (JStr [233]) (store_of sample_data)
                   fresh_world = Ok (s', w')) by reflexivity.
  split; [exact Hset|].
  destruct (set_binds_and_writes _ _ _ _ _ _ Hset) as (d & Hd & _ & Hfile & _).
  exists d. split; [exact Hd | exact Hfile].
Defined.

Lemma set_keeps_other_keys_witness :
  let s' := store_of (xy_data ++ [(lit "z", JNull)]) in
  let w' := with_file store_file (dumps false (KeyValueStore._data s')) fresh_world in
  KeyValueStore.set (lit "z") JNull (store_of xy_data) fresh_world = Ok (s', w')
  /\ lit "y" <> lit "z"
  /\ KeyValueStore.get s' (lit "y") = KeyValueStore.get (store_of xy_data) (lit "y")
  /\ KeyValueStore.has s' (lit "y") = KeyValueStore.has (store_of xy_data) (lit "y").
Proof.
  intros s' w'.
  assert (Hset : KeyValueStore.set (lit "z") JNull (store_of xy_data) fresh_world
                 = Ok (s', w')) by reflexivity.
  assert (Hne : lit "y" <> lit "z") by discriminate.
  split; [exact Hset|]. split; [exact Hne|].
  exact (set_keeps_other_keys _ _ _ _ _ _ _ Hset Hne).
Defined.

Lemma set_twice_last_wins_witness :
  let s1 := store_of [(lit "x", JInt 1)] in
  let w1 := with_file store_file (dumps false (KeyValueStore._data s1)) fresh_world in
  let s2 := store_of [(lit "x", JInt 2)] in
  let w2 := with_file store_file (dumps false (KeyValueStore._data s2)) w1 in
  KeyValueStore.set (lit "x") (JInt 1) empty_store fresh_world = Ok (s1, w1)
  /\ KeyValueStore.set (lit "x") (JInt 2) s1 w1 = Ok (s2, w2)
  /\ KeyValueStore.set (lit "x") (JInt 2) empty_store fresh_world = Ok (s2, w2).
Proof.
  intros s1 w1 s2 w2.
  assert (H1 : KeyValueStore.set (lit "x") (JInt 1) empty_store fresh_world
               = Ok (s1, w1)) by reflexivity.
  assert (H2 : KeyValueStore.set (lit "x") (JInt 2) s1 w1 = Ok (s2, w2))
    by reflexivity.
  split; [exact H1|]. split; [exact H2|].
  exact (set_twice_last_wins _ _ _ _ _ _ _ _ _ H1 H2).
Defined.

Lemma remove_present_witness :
  let s' := store_of [(lit "y", JInt 2)] in
  let w' := with_file store_file (dumps false (KeyValueStore._data s')) fresh_world in
  KeyValueStore.has (store_of xy_data) (lit "x") = Ok true
  /\ KeyValueStore.remove (lit "x") (store_of xy_data) fresh_world = Ok (s', w')
  /\ KeyValueStore.has s' (lit "x") = Ok false
  /\ KeyValueStore.get s' (lit "x") = Ok JNull
  /\ KeyValueStore.get s' (lit "y") = KeyValueStore.get (store_of xy_data) (lit "y").
Proof.
  intros s' w'.
  assert (Hhas : KeyValueStore.has (store_of xy_data) (lit "x") = Ok true)
    by reflexivity.
  assert (Hrem : KeyValueStore.remove (lit "x") (store_of xy_data) fresh_world
                 = Ok (s', w')) by reflexivity.
  destruct (remove_present _ _ _ _ _ Hhas Hrem) as (H1 & H2 & H3 & _).
  split; [exact Hhas|]. split; [exact Hrem|]. split; [exact H1|].
  split; [exact H2|]. apply H3. discriminate.
Defined.

Lemma remove_twice_witness :
  let s' := store_of [(lit "y", JInt 2)] in
  let w' := with_file store_file (dumps false (KeyValueStore._data s')) fresh_world in
  KeyValueStore.remove (lit "x") (store_of xy_data) fresh_world = Ok (s', w')
  /\ KeyValueStore.remove (lit "x") s' w' = Ok (s', w').
Proof.
  intros s' w'.
  assert (Hrem : KeyValueStore.remove (lit "x") (store_of xy_data) fresh_world
                 = Ok (s', w')) by reflexivity.
  split; [exact Hrem|]. exact (remove_twice _ _ _ _ _ Hrem).
Defined.

Lemma set_then_remove_restores_witness :
  let s1 := store_of (xy_data ++ [(lit "z", JInt 3)]) in
  let w1 := with_file store_file (dumps false (KeyValueStore._data s1)) fresh_world in
  let s2 := store_of xy_data in
  let w2 := with_file store_file (dumps false (JObj xy_data)) w1 in
  KeyValueStore.has (store_of xy_data) (lit "z") = Ok false
  /\ KeyValueStore.set (lit "z") (JInt 3) (store_of xy_data) fresh_world = Ok (s1, w1)
  /\ KeyValueStore.remove (lit "z") s1 w1 = Ok (s2, w2)
  /\ KeyValueStore._data s2 = KeyValueStore._data (store_of xy_data).
Proof.
  intros s1 w1 s2 w2.
  assert (Habs : KeyValueStore.has (store_of xy_data) (lit "z") = Ok false)
    by reflexivity.
  assert (Hset : KeyValueStore.set (lit "z") (JInt 3) (store_of xy_data) fresh_world
                 = Ok (s1, w1)) by reflexivity.
  assert (Hrem : KeyValueStore.remove (lit "z") s1 w1 = Ok (s2, w2)) by reflexivity.
  destruct (set_then_remove_restores _ _ _ _ _ _ _ _ Habs Hset Hrem) as [Hdata _].
  split; [exact Habs|]. split; [exact Hset|]. split; [exact Hrem|]. exact Hdata.
Defined.

Lemma clear_empties_and_writes_witness :
  let w' := with_file store_file (lit "{}") fresh_world in
  KeyValueStore._data (store_of sample_data) = JObj sample_data
  /\ KeyValueStore.clear (store_of sample_data) fresh_world = Ok (empty_store, w')
  /\ fs w' !! store_file = Some (File (lit "{}"))
  /\ KeyValueStore.get empty_store (lit "x") = Ok JNull.
Proof.
  intros w'.
  assert (Hclr : KeyValueStore.clear (store_of sample_data) fresh_world
                 = Ok (empty_store, w')) by reflexivity.
  destruct (clear_empties_and_writes (store_of sample_data) fresh_world
              empty_store w' sample_data eq_refl Hclr) as (_ & Hfile & Hkeys).
  split; [reflexivity|]. split; [exact Hclr|]. split; [exact Hfile|].
  exact (proj1 (Hkeys (lit "x"))).
Defined.

Lemma clear_then_reload_witness :
  let w' := with_file store_file (lit "{}") fresh_world in
  KeyValueStore._path (store_of sample_data)
  = KeyValueStore.path_of (lit "my") None fresh_world
  /\ KeyValueStore.clear (store_of sample_data) fresh_world = Ok (empty_store, w')
  /\ KeyValueStore.__init__ (lit "my") None w' = Ok (empty_store, w').
Proof.
  intros w'.
  assert (Hpath : KeyValueStore._path (store_of sample_data)
                  = KeyValueStore.path_of (lit "my") None fresh_world) by reflexivity.
  assert (Hclr : KeyValueStore.clear (store_of sample_data) fresh_world
                 = Ok (empty_store, w')) by reflexivity.
  split; [exact Hpath|]. split; [exact Hclr|].
  exact (clear_then_reload (lit "my") None _ _ _ _ Hpath Hclr).
Defined.

Lemma mutation_keeps_name_and_path_witness :
  let s' := store_of [(lit "x", JInt 1)] in
  let w' := with_file store_file (dumps false (KeyValueStore._data s')) fresh_world in
  KeyValueStore.set (lit "x") (JInt 1) empty_store fresh_world = Ok (s', w')
  /\ KeyValueStore._name s' = KeyValueStore._name empty_store
  /\ KeyValueStore._path s' = KeyValueStore._path empty_store
  /\ wallet_calls w' = wallet_calls fresh_world.
Proof.
  intros s' w'.
  assert (Hset : KeyValueStore.set (lit "x") (JInt 1) empty_store fresh_world
                 = Ok (s', w')) by reflexivity.
  destruct (mutation_keeps_name_and_path (lit "x") (JInt 1) empty_store
              fresh_world s' w' (or_introl Hset))
    as (Hn & Hp & _ & _ & Hw).
  split; [exact Hset|]. split; [exact Hn|]. split; [exact Hp|]. exact Hw.
Defined.

Lemma set_surrogate_key_never_returns_witness :
  55296 ∈ [55296] /\ is_scalar 55296 = false
  /\ ~ exists res, KeyValueStore.set [55296] (JInt 1) empty_store fresh_world
                   = Ok res.
Proof.
  assert (Hin : 55296 ∈ [55296]) by left.
  split; [exact Hin|]. split; [reflexivity|].
  exact (set_surrogate_key_never_returns [55296] (JInt 1) empty_store fresh_world
           55296 Hin eq_refl).
Defined.

Lemma load_all_keys_reads_only_witness :
  let w := keys_of alice_keys in
  load_all_keys w = Ok (JObj alice_keys, w)
  /\ exists c, fs w !! private_keys_file w = Some (File c)
               /\ loads c = Some (JObj alice_keys).
Proof.
  intros w.
  assert (Hload : load_all_keys w = Ok (JObj alice_keys, w)) by reflexivity.
  split; [exact Hload|].
  destruct (load_all_keys_reads_only w _ _ Hload) as [_ [[Hnone _]|Hfile]].
  - discriminate Hnone.
  - exact Hfile.
Defined.

Lemma malformed_key_file_raises_witness :
  let w := world_with keys_file (lit "{") in
  fs w !! private_keys_file w = Some (File (lit "{"))
  /\ loads (lit "{") = None
  /\ load_all_keys w = Raise JSONDecodeError
  /\ save_private_keys (lit "alice") (lit "A") (lit "B") w = Raise JSONDecodeError
  /\ get_or_create_private_keys (lit "alice") w = Raise JSONDecodeError.
Proof.
  intros w.
  assert (Hf : fs w !! private_keys_file w = Some (File (lit "{"))) by reflexivity.
  assert (Hbad : loads (lit "{") = None) by reflexivity.
  destruct (malformed_key_file_raises w (lit "{") Hf Hbad) as (H1 & H2 & H3).
  split; [exact Hf|]. split; [exact Hbad|]. split; [exact H1|].
  split; [apply H2 | apply H3].
Defined.

Lemma save_then_get_or_create_witness :
  let w := keys_of bob_keys in
  load_all_keys w = Ok (JObj bob_keys, w)
  /\ well_formed (str_ok_for true) (JObj bob_keys) = true
  /\ exists w',
       save_private_keys (lit "alice") (lit "A") (lit "B") w = Ok (tt, w')
       /\ get_or_create_private_keys (lit "alice") w'
          = Ok ((JStr (lit "A"), JStr (lit "B")), w').
Proof.
  intros w.
  assert (Hload : load_all_keys w = Ok (JObj bob_keys, w)) by reflexivity.
  assert (Hwf : well_formed (str_ok_for true) (JObj bob_keys) = true)
    by reflexivity.
  split; [exact Hload|]. split; [exact Hwf|].
  exact (save_then_get_or_create (lit "alice") (lit "A") (lit "B") w bob_keys
           Hload Hwf eq_refl eq_refl eq_refl).
Defined.


Lemma record_without_key_raises_witness :
  let w := keys_of alice_half in
  load_all_keys w = Ok (JObj alice_half, w)
  /\ dict_get (lit "alice") alice_half
     = Some (JObj [(lit "identity_key", JStr (lit "A"))])
  /\ dict_get (lit "wallet_key") [(lit "identity_key", JStr (lit "A"))] = None
  /\ get_or_create_private_keys (lit "alice") w = Raise KeyError.
Proof.
  intros w.
  assert (Hload : load_all_keys w = Ok (JObj alice_half, w)) by reflexivity.
  assert (Hmiss : dict_get (lit "wallet_key")
                    [(lit "identity_key", JStr (lit "A"))] = None) by reflexivity.
  split; [exact Hload|]. split; [reflexivity|]. split; [exact Hmiss|].
  apply (record_without_key_raises (lit "alice") w alice_half
           [(lit "identity_key", JStr (lit "A"))] Hload eq_refl).
  - discriminate.
  - right. exact Hmiss.
Defined.



End More_examples.
